(** * FitCRM client manager: a shallow embedding of [js/main.js]

    The development follows the script section by section: the values and
    strings of the language that the script relies on, the JSON text kept in
    [localStorage], the form handler, the list view with its search filter,
    and the delete and view handlers.

    Modelling conventions.
    - A JavaScript string is a sequence of code units; the model keeps the
      code units below 256, so a string is a Rocq [string] and a code unit an
      [ascii].  The search expression is also given on 16-bit code units,
      where the lowercase of a string is not taken letter by letter.
    - An object with primitive-valued own properties (a client record, the
      data read from the form) is a [gmap string JsPrim]; a missing property
      reads as [None], the model of [undefined].
    - Numbers are modelled on the integers.  The script computes with one
      number, the reading of the clock; other numbers only come from stored
      text that the script did not write, and the model is exact on the
      integers up to 2^53 in magnitude.
    - A handler is a computation over [World], the part of the browser state
      the script touches: [localStorage], the validation message, the alerts
      shown, the visible page and the rows of the client table.  It ends in
      a completion, normal or a raised error, and leaves a state either way.
    - What a handler takes from its environment is an argument: the entries
      of the submitted form, the reading of the clock, the answer to the
      confirmation dialog. *)

From Stdlib Require Import ZArith NArith Ascii String List Lia Bool.
From Stdlib Require Import DecimalString DecimalFacts DecimalN DecimalZ.
From stdpp Require Import base option list strings gmap fin_maps.

Local Open Scope string_scope.
Local Open Scope Z_scope.

(** ** Code units and strings *)

Module JsString.

Definition code (c : ascii) : N := N_of_ascii c.

(** Code units with an uppercase mapping target in the first 256:
    [A-Z], and [U+00C0 .. U+00DE] without the multiplication sign. *)
Definition is_upper (c : ascii) : bool :=
  let n := code c in
  ((65 <=? n) && (n <=? 90))%N
  || ((192 <=? n) && (n <=? 222) && negb (n =? 215))%N.

Definition lower_char (c : ascii) : ascii :=
  if is_upper c then ascii_of_N (code c + 32) else c.

(** [String.prototype.toLowerCase] *)
Fixpoint toLowerCase (s : string) : string :=
  match s with
  | EmptyString => EmptyString
  | String c r => String (lower_char c) (toLowerCase r)
  end.

(** [s.startsWith(p)] *)
Fixpoint startsWith (p s : string) : bool :=
  match p, s with
  | EmptyString, _ => true
  | String a p', String b s' => Ascii.eqb a b && startsWith p' s'
  | String _ _, EmptyString => false
  end.

(** [s.includes(p)]: [p] occurs in [s] at some position. *)
Fixpoint includes (s p : string) : bool :=
  startsWith p s ||
  match s with
  | EmptyString => false
  | String _ s' => includes s' p
  end.

(** Whitespace of the regular expression class [\s], below 256. *)
Definition is_space (c : ascii) : bool :=
  let n := code c in
  ((9 <=? n) && (n <=? 13) || (n =? 32) || (n =? 160))%N.

End JsString.

(** ** Code units from 256 on

    A string of the script is a sequence of 16-bit code units.  The one
    place where the script depends on what a code unit from 256 on stands
    for is the search filter, through [toLowerCase]; this module has the
    search expression on strings of 16-bit code units.  [toLowerCase] is
    modelled on Basic Latin, Latin-1 Supplement and the Greek letters from
    U+0391 to U+03CE, where it keeps the length; it is [None] on a string
    with any other code unit.  A capital sigma becomes the final small sigma
    when a cased letter comes before it and none after it, code units that
    are ignored for case skipped on either side, as the language definition
    takes it from the Unicode standard. *)

Module Utf16.

Definition CAPITAL_SIGMA : N := 931.
Definition SMALL_FINAL_SIGMA : N := 962.
Definition SMALL_SIGMA : N := 963.

Definition is_greek (n : N) : bool :=
  ((913 <=? n) && (n <=? 974) && negb (n =? 930))%N.

Definition in_tables (n : N) : bool := (n <? 256)%N || is_greek n.

(** Code units with a lowercase mapping: [A-Z], [U+00C0 .. U+00DE] without
    the multiplication sign, and the Greek capitals [U+0391 .. U+03AB]. *)
Definition has_lower (n : N) : bool :=
  ((65 <=? n) && (n <=? 90))%N
  || ((192 <=? n) && (n <=? 222) && negb (n =? 215))%N
  || ((913 <=? n) && (n <=? 939) && negb (n =? 930))%N.

Definition lower_unit (n : N) : N := if has_lower n then (n + 32)%N else n.

(** Cased letters: the letters of either case, the ordinal indicators and
    the micro sign. *)
Definition cased (n : N) : bool :=
  ((65 <=? n) && (n <=? 90))%N || ((97 <=? n) && (n <=? 122))%N
  || (n =? 170)%N || (n =? 181)%N || (n =? 186)%N
  || ((192 <=? n) && (n <=? 214))%N || ((216 <=? n) && (n <=? 246))%N
  || ((248 <=? n) && (n <=? 255))%N
  || is_greek n.

(** Ignored for case: apostrophe, full stop, colon, circumflex, grave,
    diaeresis, soft hyphen, macron, acute, middle dot, cedilla. *)
Definition case_ignorable (n : N) : bool :=
  bool_decide (n ∈ [39; 46; 58; 94; 96; 168; 173; 175; 180; 183; 184]%N).

(** The code units [s] start with a cased letter, after any number of code
    units that are ignored for case. *)
Fixpoint cased_follows (s : list N) : bool :=
  match s with
  | [] => false
  | c :: r => if case_ignorable c then cased_follows r else cased c
  end.

(** The lowercase of [s] where [before] are the code units that precede it,
    the nearest first. *)
Fixpoint lower_from (before s : list N) : list N :=
  match s with
  | [] => []
  | c :: r =>
      (if (c =? CAPITAL_SIGMA)%N then
         if cased_follows before && negb (cased_follows r) then SMALL_FINAL_SIGMA
         else SMALL_SIGMA
       else lower_unit c)
      :: lower_from (c :: before) r
  end.

(** [String.prototype.toLowerCase] *)
Definition toLowerCase (s : list N) : option (list N) :=
  if forallb in_tables s then Some (lower_from [] s) else None.

(** [s.startsWith(p)] *)
Fixpoint startsWith (p s : list N) : bool :=
  match p, s with
  | [], _ => true
  | a :: p', b :: s' => (a =? b)%N && startsWith p' s'
  | _ :: _, [] => false
  end.

(** [s.includes(p)] *)
Fixpoint includes (s p : list N) : bool :=
  startsWith p s ||
  match s with
  | [] => false
  | _ :: s' => includes s' p
  end.

(** The callback of the search filter on a name,
    [fullName.toLowerCase().includes(filter.toLowerCase())]. *)
Definition nameIncludes (fullName filter : list N) : option bool :=
  n ← toLowerCase fullName; f ← toLowerCase filter; Some (includes n f).


End Utf16.

(** ** Regular expressions

  The script has one pattern, matched with [RegExp.prototype.test] between
  the anchors [^] and [$] and without flags, so a test is a match of the
  whole string.  The matcher works by derivatives. *)

Module RegExp.

Inductive re : Type :=
  | Void
  | Eps
  | Class (p : ascii -> bool)
  | Seq (a b : re)
  | Alt (a b : re)
  | Star (a : re).

(** [a+] *)
Definition Plus (a : re) : re := Seq a (Star a).

Fixpoint nullable (r : re) : bool :=
  match r with
  | Void => false
  | Eps => true
  | Class _ => false
  | Seq a b => nullable a && nullable b
  | Alt a b => nullable a || nullable b
  | Star _ => true
  end.

Fixpoint deriv (c : ascii) (r : re) : re :=
  match r with
  | Void => Void
  | Eps => Void
  | Class p => if p c then Eps else Void
  | Seq a b =>
      if nullable a then Alt (Seq (deriv c a) b) (deriv c b)
      else Seq (deriv c a) b
  | Alt a b => Alt (deriv c a) (deriv c b)
  | Star a => Seq (deriv c a) (Star a)
  end.

(** [/^r$/.test(s)] *)
Fixpoint test (r : re) (s : string) : bool :=
  match s with
  | EmptyString => nullable r
  | String c s' => test (deriv c r) s'
  end.

(** What a pattern denotes, as a relation on strings. *)
Inductive Matches : re -> string -> Prop :=
  | MEps : Matches Eps EmptyString
  | MClass p c : p c = true -> Matches (Class p) (String c EmptyString)
  | MSeq a b s t : Matches a s -> Matches b t -> Matches (Seq a b) (s ++ t)
  | MAltL a b s : Matches a s -> Matches (Alt a b) s
  | MAltR a b s : Matches b s -> Matches (Alt a b) s
  | MStarNil a : Matches (Star a) EmptyString
  | MStarCons a s t :
    Matches a s -> Matches (Star a) t -> Matches (Star a) (s ++ t).

End RegExp.

(** ** Values *)

(** The primitive values a property of a stored record can hold. *)
Inductive JsPrim : Type :=
| PStr (s : string)
| PNum (n : Z)
| PBool (b : bool)
| PNull.

#[global] Instance JsPrim_eq_dec : EqDecision JsPrim.
Proof. solve_decision. Defined.

(** A record: own properties with primitive values.  Reading a property
  gives an [option JsPrim], [None] standing for [undefined]. *)
Abbreviation Client := (gmap string JsPrim).

Module Js.

(** [Number.prototype.toString] on an integer below 10^21 in magnitude,
    as a reading of the clock is: the decimal digits. *)
Definition Number_toString (n : Z) : string :=
  NilZero.string_of_int (Z.to_int n).

(** Truthiness, as used by [!x], [x ? a : b] and [if (x)]. *)
Definition truthy (v : option JsPrim) : bool :=
  match v with
  | None => false
  | Some (PStr s) => negb (String.eqb s EmptyString)
  | Some (PNum n) => negb (n =? 0)
  | Some (PBool b) => b
  | Some PNull => false
  end.

(** The conversion to string of template literals and [test]. *)
Definition ToString (v : option JsPrim) : string :=
  match v with
  | None => "undefined"
  | Some (PStr s) => s
  | Some (PNum n) => Number_toString n
  | Some (PBool true) => "true"
  | Some (PBool false) => "false"
  | Some PNull => "null"
  end.

(** [a === b] *)
Definition strict_eq (a b : option JsPrim) : bool := bool_decide (a = b).

(** Exceptions the modelled code can raise. *)
Inductive Error : Type := SyntaxError | TypeError.

End Js.

(** ** JSON text

    [localStorage] holds text.  The script writes it with [JSON.stringify]
    and reads it with [JSON.parse]; on the values of the script, arrays of
    records, these are the functions below.  [parse] returns [None] where
    [JSON.parse] raises a [SyntaxError]; text that denotes anything but an
    array of records with primitive members (nested values, numbers with a
    fraction or an exponent, escapes of code units from 256 on) is outside
    the model and is answered with [None] as well.  Members are written in
    the key order of the map, which the reader does not depend on. *)

Module JSON.

Import JsString.

Definition dquote : ascii := "034"%char.
Definition backslash : ascii := "092"%char.

Definition hex_digit (n : N) : ascii :=
  if (n <? 10)%N then ascii_of_N (48 + n) else ascii_of_N (87 + n).

(** The escape of one code unit in a quoted string. *)
Definition quote_char (c : ascii) : string :=
  let n := code c in
  if (n =? 8)%N then "\b"
  else if (n =? 9)%N then "\t"
  else if (n =? 10)%N then "\n"
  else if (n =? 12)%N then "\f"
  else if (n =? 13)%N then "\r"
  else if (n =? 34)%N then String backslash (String dquote EmptyString)
  else if (n =? 92)%N then String backslash (String backslash EmptyString)
  else if (n <? 32)%N then
    "\u00" +:+ String (hex_digit (n / 16)) (String (hex_digit (n mod 16)) EmptyString)
  else String c EmptyString.

Fixpoint quote_body (s : string) : string :=
  match s with
  | EmptyString => EmptyString
  | String c r => quote_char c +:+ quote_body r
  end.

Definition quote (s : string) : string :=
  String dquote (quote_body s +:+ String dquote EmptyString).

Definition stringify_prim (v : JsPrim) : string :=
  match v with
  | PStr s => quote s
  | PNum n => Js.Number_toString n
  | PBool true => "true"
  | PBool false => "false"
  | PNull => "null"
  end.

Definition stringify_member (kv : string * JsPrim) : string :=
  quote kv.1 +:+ ":" +:+ stringify_prim kv.2.

Fixpoint join_comma (l : list string) : string :=
  match l with
  | [] => EmptyString
  | [x] => x
  | x :: r => x +:+ "," +:+ join_comma r
  end.

Definition stringify_object (o : Client) : string :=
  "{" +:+ join_comma (stringify_member <$> map_to_list o) +:+ "}".

(** [JSON.stringify(clients)] *)
Definition stringify (clients : list Client) : string :=
  "[" +:+ join_comma (stringify_object <$> clients) +:+ "]".

(** *** Reading *)

Definition is_ws (c : ascii) : bool :=
  let n := code c in ((n =? 9) || (n =? 10) || (n =? 13) || (n =? 32))%N.

Fixpoint skip_ws (s : string) : string :=
  match s with
  | String c r => if is_ws c then skip_ws r else s
  | EmptyString => EmptyString
  end.

Definition hex_value (c : ascii) : option N :=
  let n := code c in
  if ((48 <=? n) && (n <=? 57))%N then Some (n - 48)%N
  else if ((97 <=? n) && (n <=? 102))%N then Some (n - 87)%N
  else if ((65 <=? n) && (n <=? 70))%N then Some (n - 55)%N
  else None.

Definition hex4 (a b c d : ascii) : option N :=
  x ← hex_value a; y ← hex_value b; z ← hex_value c; w ← hex_value d;
  Some (((x * 16 + y) * 16 + z) * 16 + w)%N.

(** The code unit an escape letter stands for. *)
Definition unescape (e : ascii) : option ascii :=
  if (e =? dquote)%char then Some dquote
  else if (e =? backslash)%char then Some backslash
  else if (e =? "/")%char then Some "/"%char
  else if (e =? "b")%char then Some "008"%char
  else if (e =? "f")%char then Some "012"%char
  else if (e =? "n")%char then Some "010"%char
  else if (e =? "r")%char then Some "013"%char
  else if (e =? "t")%char then Some "009"%char
  else None.

(** The characters of a string literal after its opening quote, up to and
    with the closing quote; the decoded string and the text that follows. *)
Fixpoint read_chars (s : string) : option (string * string) :=
  match s with
  | EmptyString => None
  | String c r =>
      if (c =? dquote)%char then Some (EmptyString, r)
      else if (c =? backslash)%char then
        match r with
        | String e r' =>
            if (e =? "u")%char then
              match r' with
              | String h1 (String h2 (String h3 (String h4 r''))) =>
                  n ← hex4 h1 h2 h3 h4;
                  if (n <? 256)%N then
                    '(t, rest) ← read_chars r''; Some (String (ascii_of_N n) t, rest)
                  else None
              | _ => None
              end
            else
              d ← unescape e;
              '(t, rest) ← read_chars r'; Some (String d t, rest)
        | EmptyString => None
        end
      else if (code c <? 32)%N then None
      else '(t, rest) ← read_chars r; Some (String c t, rest)
  end.

Definition read_string (s : string) : option (string * string) :=
  match s with
  | String c r => if (c =? dquote)%char then read_chars r else None
  | EmptyString => None
  end.

Definition is_digit (c : ascii) : bool :=
  let n := code c in ((48 <=? n) && (n <=? 57))%N.

Fixpoint span_digits (s : string) : string * string :=
  match s with
  | String c r =>
      if is_digit c then let '(d, rest) := span_digits r in (String c d, rest)
      else (EmptyString, s)
  | EmptyString => (EmptyString, EmptyString)
  end.

(** A run of decimal digits without a leading zero, or the single zero. *)
Definition read_digits (s : string) : option (N * string) :=
  let '(ds, rest) := span_digits s in
  match ds with
  | EmptyString => None
  | String d ds' =>
      if (d =? "0")%char && negb (String.eqb ds' EmptyString) then None
      else u ← NilEmpty.uint_of_string ds; Some (N.of_uint u, rest)
  end.

Definition read_number (s : string) : option (Z * string) :=
  match s with
  | String c r =>
      if (c =? "-")%char then '(n, rest) ← read_digits r; Some (- Z.of_N n, rest)
      else '(n, rest) ← read_digits s; Some (Z.of_N n, rest)
  | EmptyString => None
  end.

Fixpoint strip_prefix (w s : string) : option string :=
  match w, s with
  | EmptyString, _ => Some s
  | String a w', String b s' => if (a =? b)%char then strip_prefix w' s' else None
  | String _ _, EmptyString => None
  end.

Definition read_word (w : string) (v : JsPrim) (s : string) : option (JsPrim * string) :=
  rest ← strip_prefix w s; Some (v, rest).

Definition read_value (s : string) : option (JsPrim * string) :=
  match s with
  | String c _ =>
      if (c =? dquote)%char then '(t, rest) ← read_string s; Some (PStr t, rest)
      else if (c =? "t")%char then read_word "true" (PBool true) s
      else if (c =? "f")%char then read_word "false" (PBool false) s
      else if (c =? "n")%char then read_word "null" PNull s
      else '(n, rest) ← read_number s; Some (PNum n, rest)
  | EmptyString => None
  end.

(** [expect c s]: the text after [c] when [s] starts with it. *)
Definition expect (c : ascii) (s : string) : option string :=
  match s with
  | String c' r => if (c' =? c)%char then Some r else None
  | EmptyString => None
  end.

(** The members of an object after the first key has been sighted;
    a repeated key keeps its last value. *)
Fixpoint read_members (fuel : nat) (o : Client) (s : string) : option (Client * string) :=
  match fuel with
  | O => None
  | S fuel' =>
      '(k, s1) ← read_string s;
      s2 ← expect ":" (skip_ws s1);
      '(v, s3) ← read_value (skip_ws s2);
      let o' := <[k:=v]> o in
      match skip_ws s3 with
      | String c r =>
          if (c =? ",")%char then read_members fuel' o' (skip_ws r)
          else if (c =? "}")%char then Some (o', r)
          else None
      | EmptyString => None
      end
  end.

Definition read_object (fuel : nat) (s : string) : option (Client * string) :=
  s1 ← expect "{" s;
  match skip_ws s1 with
  | String c r => if (c =? "}")%char then Some (∅, r) else read_members fuel ∅ (skip_ws s1)
  | EmptyString => None
  end.

Fixpoint read_elements (fuel : nat) (s : string) : option (list Client * string) :=
  match fuel with
  | O => None
  | S fuel' =>
      '(o, s1) ← read_object fuel' s;
      match skip_ws s1 with
      | String c r =>
          if (c =? ",")%char then
            '(l, rest) ← read_elements fuel' (skip_ws r); Some (o :: l, rest)
          else if (c =? "]")%char then Some ([o], r)
          else None
      | EmptyString => None
      end
  end.

Definition read_array (fuel : nat) (s : string) : option (list Client * string) :=
  s1 ← expect "[" s;
  match skip_ws s1 with
  | String c r => if (c =? "]")%char then Some ([], r) else read_elements fuel (skip_ws s1)
  | EmptyString => None
  end.

(** [JSON.parse(text)] *)
Definition parse (text : string) : option (list Client) :=
  '(l, rest) ← read_array (String.length text) (skip_ws text);
  match skip_ws rest with
  | EmptyString => Some l
  | String _ _ => None
  end.

End JSON.

(** ** The browser state and computations over it *)

Inductive Page : Type := PageList | PageForm | PageView.

Record World : Type := mkWorld {
  (** [localStorage]: text by key *)
  localStorage : gmap string string;
  (** text of the element [validation-message] *)
  validationMessage : string;
  (** the messages shown by [alert], oldest first *)
  alerts : list string;
  (** the page that is not hidden *)
  page : Page;
  (** the rows of [client-table-body], one per record shown *)
  tableRows : list Client;
  (** whether [client-table] is hidden and [no-clients-message] shown *)
  tableHidden : bool;
  (** the record whose details the view page displays *)
  viewed : option Client
}.

Inductive Completion (A : Type) : Type :=
| Normal (a : A)
| Throw (e : Js.Error).
Arguments Normal {A} a.
Arguments Throw {A} e.

(** A statement sequence: it runs from a state to a completion and the
    state it leaves, also when it raises. *)
Definition M (A : Type) : Type := World -> Completion A * World.

#[global] Instance M_ret : MRet M := fun A a w => (Normal a, w).

#[global] Instance M_bind : MBind M := fun A B k m w =>
  match m w with
  | (Normal a, w') => k a w'
  | (Throw e, w') => (Throw e, w')
  end.

Definition throw {A : Type} (e : Js.Error) : M A := fun w => (Throw e, w).
Definition gets {A : Type} (f : World -> A) : M A := fun w => (Normal (f w), w).
Definition modify (f : World -> World) : M unit := fun w => (Normal tt, f w).
Definition lift {A : Type} (c : Completion A) : M A := fun w => (c, w).

(** The state a computation leaves, and its completion. *)
Definition exec {A : Type} (m : M A) (w : World) : World := (m w).2.
Definition eval {A : Type} (m : M A) (w : World) : Completion A := (m w).1.

Definition set_localStorage (f : gmap string string -> gmap string string) : M unit :=
  modify (fun w => mkWorld (f (localStorage w)) (validationMessage w) (alerts w)
                           (page w) (tableRows w) (tableHidden w) (viewed w)).
Definition set_validationMessage (s : string) : M unit :=
  modify (fun w => mkWorld (localStorage w) s (alerts w)
                           (page w) (tableRows w) (tableHidden w) (viewed w)).
Definition alert (s : string) : M unit :=
  modify (fun w => mkWorld (localStorage w) (validationMessage w) (alerts w ++ [s])%list
                           (page w) (tableRows w) (tableHidden w) (viewed w)).
Definition set_page (p : Page) : M unit :=
  modify (fun w => mkWorld (localStorage w) (validationMessage w) (alerts w)
                           p (tableRows w) (tableHidden w) (viewed w)).
Definition set_tableRows (rows : list Client) : M unit :=
  modify (fun w => mkWorld (localStorage w) (validationMessage w) (alerts w)
                           (page w) rows (tableHidden w) (viewed w)).
Definition set_tableHidden (b : bool) : M unit :=
  modify (fun w => mkWorld (localStorage w) (validationMessage w) (alerts w)
                           (page w) (tableRows w) b (viewed w)).
Definition set_viewed (c : option Client) : M unit :=
  modify (fun w => mkWorld (localStorage w) (validationMessage w) (alerts w)
                           (page w) (tableRows w) (tableHidden w) c).

(** ** The script *)

Definition CLIENTS_STORAGE_KEY : string := "fitcrm_clients".

(** *** Local storage data management *)

Definition getClients : M (list Client) :=
  clientsJson ← gets (fun w => localStorage w !! CLIENTS_STORAGE_KEY);
  match clientsJson with
  | Some text =>
      if String.eqb text EmptyString then mret []
      else match JSON.parse text with
           | Some clients => mret clients
           | None => throw Js.SyntaxError
           end
  | None => mret []
  end.

Definition saveClients (clients : list Client) : M unit :=
  set_localStorage (<[CLIENTS_STORAGE_KEY := JSON.stringify clients]>).

(** *** Client list view *)

(** The callback of the search filter: [fullName] has to be a string for
    [toLowerCase] to be there. *)
Definition matchesFilter (filter : string) (client : Client) : Completion bool :=
  match client !! "fullName" with
  | Some (PStr fullName) =>
      Normal (JsString.includes (JsString.toLowerCase fullName) (JsString.toLowerCase filter))
  | _ => Throw Js.TypeError
  end.

(** [Array.prototype.filter] with a callback that can raise: a new array,
    the callback applied to the elements in order. *)
Fixpoint Array_filter {A : Type} (f : A -> Completion bool) (l : list A) : Completion (list A) :=
  match l with
  | [] => Normal []
  | x :: r =>
      match f x with
      | Throw e => Throw e
      | Normal b =>
          match Array_filter f r with
          | Throw e => Throw e
          | Normal r' => Normal (if b then x :: r' else r')
          end
      end
  end.

Definition renderClientList (filter : string) : M unit :=
  clients ← getClients;
  set_tableRows [];;
  if Nat.eqb (length clients) 0 then
    set_tableHidden true
  else
    set_tableHidden false;;
    filteredClients ← lift (Array_filter (matchesFilter filter) clients);
    set_tableRows filteredClients.

(** [handleSearch(query)]: without an argument the query is the value of
    the search box. *)
Definition handleSearch (query : option string) (clientSearch : string) : M unit :=
  renderClientList (default clientSearch query).

(** *** Navigation *)

(** [setupFormMode(mode)] clears the validation message; the heading, the
    button and the fields that it resets for a new client belong to the
    form, which the model passes to the submit handler as an argument. *)
Definition setupFormMode : M unit := set_validationMessage EmptyString.

(** [navigateTo(pageName, mode)] *)
Definition navigateTo (pageName : Page) : M unit :=
  set_page pageName;;
  match pageName with
  | PageList => renderClientList EmptyString
  | PageForm => setupFormMode
  | PageView => mret tt
  end.

(** *** New/edit client form *)

(** [data[key] = value] on the object [data] of [getFormData], whose
    prototype is [Object.prototype]: an own property is written, except
    under the name [__proto__], where the assignment reaches the setter that
    [data] inherits, and that setter ignores a string. *)
Definition assignEntry (data : Client) (kv : string * string) : Client :=
  if bool_decide (kv.1 = "__proto__") then data else <[kv.1 := PStr kv.2]> data.

(** [getFormData(form)]: the entries of the form in order, a later entry
    of the same name replacing an earlier one.  A form control gives a
    string. *)
Definition getFormData (form : list (string * string)) : Client :=
  foldl assignEntry ∅ form.

Definition not_ws_at (c : ascii) : bool :=
  negb (JsString.is_space c || (c =? "@")%char).

(** [/^[^\s@]+@[^\s@]+\.[^\s@]+$/] *)
Definition emailRegex : RegExp.re :=
  RegExp.Seq (RegExp.Plus (RegExp.Class not_ws_at))
    (RegExp.Seq (RegExp.Class (Ascii.eqb "@"))
       (RegExp.Seq (RegExp.Plus (RegExp.Class not_ws_at))
          (RegExp.Seq (RegExp.Class (Ascii.eqb "."))
             (RegExp.Plus (RegExp.Class not_ws_at))))).

Definition validateFormData (data : Client) : M bool :=
  if negb (Js.truthy (data !! "fullName")) || negb (Js.truthy (data !! "email"))
     || negb (Js.truthy (data !! "startDate")) then
    set_validationMessage "Error: Full Name, Email, and Start Date are required.";;
    mret false
  else if negb (RegExp.test emailRegex (Js.ToString (data !! "email"))) then
    set_validationMessage "Error: Invalid email format.";;
    mret false
  else
    set_validationMessage EmptyString;;
    mret true.

(** [handleFormSubmit(event)]: [form] stands for the entries of
    [event.target] and [now] for the value of [Date.now()]. *)
Definition handleFormSubmit (form : list (string * string)) (now : Z) : M unit :=
  let clientData := getFormData form in
  valid ← validateFormData clientData;
  if negb valid then mret tt
  else
    clients ← getClients;
    let isEdit := Js.truthy (clientData !! "id") in
    let clientData' :=
      if isEdit then clientData
      else <["id" := PStr (Js.Number_toString now)]> clientData in
    let clients' :=
      if isEdit then
        (fun client =>
           if Js.strict_eq (client !! "id") (clientData !! "id") then clientData else client)
          <$> clients
      else (clients ++ [clientData'])%list in
    saveClients clients';;
    alert ("Client " +:+ Js.ToString (clientData' !! "fullName") +:+ " "
           +:+ (if isEdit then "updated" else "added") +:+ " successfully!");;
    navigateTo PageList.

(** *** Row actions *)

(** [getClients().find(c => c.id === clientId)], the lookup of [handleEdit]
    and [handleView]. *)
Definition findById (clientId : string) : M (option Client) :=
  clients ← getClients;
  mret (List.find (fun c => Js.strict_eq (c !! "id") (Some (PStr clientId))) clients).

(** [handleDelete(clientId, clientName)]: [confirmed] is the answer to the
    confirmation dialog. *)
Definition handleDelete (clientId clientName : string) (confirmed : bool) : M unit :=
  if confirmed then
    clients ← getClients;
    let clients' :=
      List.filter (fun client => negb (Js.strict_eq (client !! "id") (Some (PStr clientId))))
        clients in
    saveClients clients';;
    renderClientList EmptyString;;
    alert (clientName +:+ " has been deleted.")
  else mret tt.

(** [handleView(clientId)]: the suggested exercises are fetched
    asynchronously from the exercise service and are not part of the model. *)
Definition handleView (clientId : string) : M unit :=
  client ← findById clientId;
  match client with
  | None => alert "Client not found!"
  | Some c => set_viewed (Some c);; navigateTo PageView
  end.

(** ** Vocabulary of the statements *)

(** The repository holds [records]: that is what [getClients] returns. *)
Definition stored (w : World) (records : list Client) : Prop :=
  eval getClients w = Normal records.

(** The record has a name that is a string, as a record of the data model
    has. *)
Definition has_fullName (c : Client) : Prop :=
  exists s, c !! "fullName" = Some (PStr s).

(** Case-insensitive search in the words of the specification, on code
    units below 256.  The letters that come in two cases are listed, capital
    and small at the same position: the 26 of Basic Latin and the 30 of
    Latin-1 Supplement, [U+00C0 .. U+00D6] and [U+00D8 .. U+00DE] with
    [U+00E0 .. U+00F6] and [U+00F8 .. U+00FE].  Two code units are the same
    letter when they are equal or are the two cases of one letter; a query
    occurs in a name when some run of consecutive characters of the name
    spells the query letter by letter. *)
Definition capital_letters : list ascii :=
  (list_ascii_of_string "ABCDEFGHIJKLMNOPQRSTUVWXYZ"
   ++ (ascii_of_nat <$> seq 192 23) ++ (ascii_of_nat <$> seq 216 7))%list.

Definition small_letters : list ascii :=
  (list_ascii_of_string "abcdefghijklmnopqrstuvwxyz"
   ++ (ascii_of_nat <$> seq 224 23) ++ (ascii_of_nat <$> seq 248 7))%list.

Definition letter_pairs : list (ascii * ascii) := zip capital_letters small_letters.

Definition same_letter (a b : ascii) : Prop :=
  a = b \/ (a, b) ∈ letter_pairs \/ (b, a) ∈ letter_pairs.

Inductive ci_equal : string -> string -> Prop :=
| ci_equal_nil : ci_equal EmptyString EmptyString
| ci_equal_cons a b s t :
    same_letter a b -> ci_equal s t -> ci_equal (String a s) (String b t).


(** The first character of [s], if any, is not a decimal digit. *)
Definition no_digit_head (s : string) : bool :=
  match s with
  | String c _ => negb (JSON.is_digit c)
  | EmptyString => true
  end.

(** The verdict of the search filter on a record with a name. *)
Definition nameMatches (filter : string) (c : Client) : bool :=
  match c !! "fullName" with
  | Some (PStr fullName) =>
      JsString.includes (JsString.toLowerCase fullName) (JsString.toLowerCase filter)
  | _ => false
  end.

(** Equality of completions and states is decidable, which lets closed
    statements be settled by evaluation. *)
#[global] Instance Error_eq_dec : EqDecision Js.Error.
Proof. solve_decision. Defined.

#[global] Instance Completion_eq_dec {A : Type} `{EqDecision A} : EqDecision (Completion A).
Proof. solve_decision. Defined.

#[global] Instance Page_eq_dec : EqDecision Page.
Proof. solve_decision. Defined.

#[global] Instance World_eq_dec : EqDecision World.
Proof. solve_decision. Defined.

#[global] Instance stored_dec (w : World) (records : list Client) : Decision (stored w records).
Proof. unfold stored. apply _. Defined.

(** Every character of [s] satisfies [p]. *)
Fixpoint all_chars (p : ascii -> bool) (s : string) : bool :=
  match s with
  | EmptyString => true
  | String c r => p c && all_chars p r
  end.

(** What the email pattern asks for, in words: a local part, an at sign,
    a domain, a dot and a top-level part, the three parts non-empty and
    free of whitespace and at signs. *)
Definition email_shape (s : string) : Prop :=
  exists a b c : string,
    s = a +:+ "@" +:+ b +:+ "." +:+ c
    /\ a <> EmptyString /\ b <> EmptyString /\ c <> EmptyString
    /\ all_chars not_ws_at a = true /\ all_chars not_ws_at b = true
    /\ all_chars not_ws_at c = true.

(** The name is empty once leading and trailing whitespace is trimmed: all
    its characters are whitespace. *)
Fixpoint only_whitespace (s : string) : bool :=
  match s with
  | EmptyString => true
  | String c r => JsString.is_space c && only_whitespace r
  end.

(** The age of a record is absent or an integer. *)
Definition age_is_integer (c : Client) : Prop :=
  c !! "age" = None \/ exists n : Z, c !! "age" = Some (PNum n).

(** The age of a record is absent or a string. *)
Definition age_is_text (c : Client) : Prop :=
  c !! "age" = None \/ exists s : string, c !! "age" = Some (PStr s).

(** The text of the age control in the entries of a submitted form: the
    value of the entry named [age], the last one if there are several;
    [None] when the form has no such entry. *)
Definition ageEntry (form : list (string * string)) : option string :=
  snd <$> last (filter (fun kv => kv.1 = "age") form).

(** *** Sample data *)

(** The state of a first visit: nothing stored, the list page shown. *)
Definition initialWorld : World :=
  mkWorld ∅ EmptyString [] PageList [] true None.

Definition janeForm : list (string * string) :=
  [("id", ""); ("fullName", "Jane Doe"); ("age", "30"); ("gender", "Female");
   ("startDate", "2024-01-01"); ("email", "jane@example.com");
   ("phone", "555-0100"); ("fitnessGoal", "Strength")].

Definition bobForm : list (string * string) :=
  [("id", ""); ("fullName", "Bob Roe"); ("age", ""); ("gender", "Male");
   ("startDate", "2024-02-01"); ("email", "bob@example.com");
   ("phone", ""); ("fitnessGoal", "Endurance")].

(** An edit of a record that is not stored. *)
Definition strayEditForm : list (string * string) :=
  [("id", "42"); ("fullName", "Bob Roe"); ("age", ""); ("gender", "Male");
   ("startDate", "2024-02-01"); ("email", "bob@example.com");
   ("phone", ""); ("fitnessGoal", "Endurance")].

(** An edit of the record with id 1700000000000. *)
Definition janeEditForm : list (string * string) :=
  [("id", "1700000000000"); ("fullName", "Jane Q. Doe"); ("age", "31");
   ("gender", "Female"); ("startDate", "2024-01-01");
   ("email", "jane.doe@example.com"); ("phone", "555-0100");
   ("fitnessGoal", "Strength")].

(** A form whose name is a single space. *)
Definition blankNameForm : list (string * string) :=
  [("id", ""); ("fullName", " "); ("age", ""); ("gender", "");
   ("startDate", "2024-01-01"); ("email", "a@b.c");
   ("phone", ""); ("fitnessGoal", "")].

(** A form with a malformed email. *)
Definition badEmailForm : list (string * string) :=
  [("id", "1700000000000"); ("fullName", "Jane Doe"); ("age", "30");
   ("gender", "Female"); ("startDate", "2024-01-01"); ("email", "not-an-email");
   ("phone", "555-0100"); ("fitnessGoal", "Strength")].

(** The records that adding Jane at clock reading 1700000000000 and Bob one
    millisecond later is to store. *)
Definition janeRecord : Client :=
  <["id" := PStr "1700000000000"]> (getFormData janeForm).

Definition bobRecord : Client :=
  <["id" := PStr "1700000000001"]> (getFormData bobForm).

(** The world after Jane was added at clock reading 1700000000000. *)
Definition janeWorld : World :=
  exec (handleFormSubmit janeForm 1700000000000) initialWorld.

(** The world after Jane and then Bob were added, one millisecond apart. *)
Definition janeBobWorld : World :=
  exec (handleFormSubmit bobForm 1700000000001) janeWorld.

(** ** The rest of the script *)

(** *** Editing *)

(** What [handleEdit] writes to the form: the value given to each control,
    by element id, the heading and the text of the button. *)
Record FormFill : Type := mkFormFill {
  fillValues : list (string * option JsPrim);
  fillHeading : string;
  fillButton : string
}.

Definition editFill (client : Client) : FormFill :=
  mkFormFill
    [("client-id", client !! "id");
     ("fullName", client !! "fullName");
     ("age", client !! "age");
     ("gender", client !! "gender");
     ("startDate", client !! "startDate");
     ("email", client !! "email");
     ("phone", client !! "phone");
     ("fitnessGoal", client !! "fitnessGoal")]
    ("Edit Client: " +:+ Js.ToString (client !! "fullName"))
    "Save Changes".

(** [handleEdit(clientId)]: without the record it returns at once; with it,
    it fills the form and shows the form page in edit mode, where
    [setupFormMode] clears the validation message and resets nothing.  The
    form being outside [World], the writes to it are the result. *)
Definition handleEdit (clientId : string) : M (option FormFill) :=
  client ← findById clientId;
  match client with
  | None => mret None
  | Some c => navigateTo PageForm;; mret (Some (editFill c))
  end.

(** *** Suggested exercises *)

(** [description.replace(/<[^>]*>?/gm, '')]: every match is removed.  A
    match starts at a [<] and runs over the characters that follow up to and
    with the first [>], or to the end of the text when there is none;
    [inTag] says that the scan is inside a match. *)
Fixpoint stripTags_from (inTag : bool) (s : string) : string :=
  match s with
  | EmptyString => EmptyString
  | String c r =>
      if inTag then
        if (c =? ">")%char then stripTags_from false r else stripTags_from true r
      else if (c =? "<")%char then stripTags_from true r
      else String c (stripTags_from false r)
  end.

Definition stripTags (s : string) : string := stripTags_from false s.

(** [/<[^>]*>?/] *)
Definition tagRegex : RegExp.re :=
  RegExp.Seq (RegExp.Class (Ascii.eqb "<"))
    (RegExp.Seq (RegExp.Star (RegExp.Class (fun c => negb (c =? ">")%char)))
       (RegExp.Alt (RegExp.Class (Ascii.eqb ">")) RegExp.Eps)).

(** [s.substring(0, n)] *)
Fixpoint substring0 (n : nat) (s : string) : string :=
  match n, s with
  | S n', String c r => String c (substring0 n' r)
  | _, _ => EmptyString
  end.

(** An entry of the results: the two properties the script reads. *)
Record Exercise : Type := mkExercise {
  exName : option JsPrim;
  exDescription : option JsPrim
}.

(** The markup of one list item; [replace] is there on a string only. *)
Definition exerciseItem (exercise : Exercise) : Completion string :=
  match exDescription exercise with
  | Some (PStr description) =>
      Normal ("<strong>" +:+ Js.ToString (exName exercise) +:+ "</strong>: "
              +:+ substring0 100 (stripTags description) +:+ "...")
  | _ => Throw Js.TypeError
  end.

(** The items of [results.forEach], up to the first that raises. *)
Fixpoint exerciseItems (results : list Exercise) : Completion (list string) :=
  match results with
  | [] => Normal []
  | exercise :: rest =>
      match exerciseItem exercise with
      | Throw e => Throw e
      | Normal item =>
          match exerciseItems rest with
          | Throw e => Throw e
          | Normal items => Normal (item :: items)
          end
      end
  end.

(** How the request ended: [fetch] or [response.json()] rejected, the
    response was not ok, or the body was read; [results] is [None] when
    [data.results] is missing or falsy, and an array otherwise. *)
Inductive FetchResult : Type :=
| FetchRejected
| FetchNotOk (status : Z)
| FetchJson (results : option (list Exercise)).

(** The items of the list [suggested-exercises], each by its markup, while
    the request is pending and once it has ended. *)
Definition loadingExercises : list string := ["Loading exercises..."].

Definition fetchError : string := "Error fetching exercises. Please try again later.".

Definition suggestedExercises (r : FetchResult) : list string :=
  match r with
  | FetchRejected => [fetchError]
  | FetchNotOk _ => [fetchError]
  | FetchJson (Some (exercise :: rest)) =>
      match exerciseItems (exercise :: rest) with
      | Normal items => items
      | Throw _ => [fetchError]
      end
  | FetchJson _ => ["No exercises found."]
  end.

(** *** Vocabulary of the further statements *)

(** The characters of a text outside tags and inside them. *)
Definition not_lt (c : ascii) : bool := negb (c =? "<")%char.
Definition not_gt (c : ascii) : bool := negb (c =? ">")%char.

(** The description of the exercise is a string. *)
Definition has_description (e : Exercise) : Prop :=
  exists d, exDescription e = Some (PStr d).

(** The record passes validation. *)
Definition passesValidation (c : Client) : Prop :=
  eval (validateFormData c) initialWorld = Normal true.

(** The id of the record is the decimal of a clock reading before [t]. *)
Definition id_before (t : Z) (c : Client) : Prop :=
  exists t0 : Z, t0 < t /\ c !! "id" = Some (PStr (Js.Number_toString t0)).

(** The text without the JSON whitespace it starts with: tab, line feed,
    carriage return and space. *)
Fixpoint drop_json_ws (text : string) : string :=
  match text with
  | String c r =>
      if bool_decide (c ∈ ["009"; "010"; "013"; " "]%char) then drop_json_ws r else text
  | EmptyString => EmptyString
  end.

(** The characters a JSON value can begin with: the bracket of an array,
    the brace of an object, the quote of a string, the minus sign or a digit
    of a number, and the first letters of [true], [false] and [null]. *)
Definition json_value_starts : list ascii :=
  "034"%char :: list_ascii_of_string "[{-0123456789tfn".

(** The text is not JSON, by how it starts: after its leading whitespace it
    is over, or goes on with a character that begins no JSON value. *)
Definition starts_no_value (text : string) : bool :=
  match drop_json_ws text with
  | EmptyString => true
  | String c _ => negb (bool_decide (c ∈ json_value_starts))
  end.

(** A state whose stored text is what [localStorage] keeps of the value
    [undefined]. *)
Definition undefinedWorld : World :=
  mkWorld {[CLIENTS_STORAGE_KEY := "undefined"]} EmptyString [] PageList [] true None.

(** A state that stores one record without any property. *)
Definition namelessWorld : World :=
  mkWorld {[CLIENTS_STORAGE_KEY := JSON.stringify [∅]]} EmptyString [] PageList [] true None.

(** * Properties *)

Import JsString RegExp JSON.

(** ** Strings *)

Lemma app_cons_s (c : ascii) (s t : string) : String c s +:+ t = String c (s +:+ t).
Proof. reflexivity. Qed.

Lemma app_nil_s (t : string) : EmptyString +:+ t = t.
Proof. reflexivity. Qed.

Lemma app_assoc_s (a b c : string) : (a +:+ b) +:+ c = a +:+ (b +:+ c).
Proof. induction a as [|x a IH]; [done|]. by rewrite !app_cons_s, IH. Qed.

Lemma app_nil_r_s (a : string) : a +:+ EmptyString = a.
Proof. induction a as [|x a IH]; [done|]. by rewrite app_cons_s, IH. Qed.

Lemma length_app_s (a b : string) :
  String.length (a +:+ b) = (String.length a + String.length b)%nat.
Proof. induction a as [|x a IH]; [done|]. rewrite app_cons_s. simpl. by rewrite IH. Qed.

Lemma app_eq_nil_s (s t : string) :
  s +:+ t = EmptyString -> s = EmptyString /\ t = EmptyString.
Proof. destruct s; [done|]. by rewrite app_cons_s. Qed.

(** ** Regular expressions: the matcher decides the denotation *)

Lemma nullable_Matches (r : re) : nullable r = true <-> Matches r EmptyString.
Proof.
  split.
  - induction r; simpl; try done.
    + intros _. constructor.
    + intros [H1 H2]%andb_true_iff.
      change EmptyString with (EmptyString +:+ EmptyString). constructor; auto.
    + intros [H|H]%orb_true_iff; [apply MAltL|apply MAltR]; auto.
    + intros _. constructor.
  - intros H. remember EmptyString as s eqn:Es.
    induction H as [| | a b s t _ IHs _ IHt| a b s _ IH | a b s _ IH | |]; simpl; try done.
    + apply app_eq_nil_s in Es as [-> ->]. by rewrite IHs, IHt.
    + by rewrite IH.
    + rewrite IH by done. apply orb_true_r.
Qed.

Lemma Matches_deriv (c : ascii) (r : re) :
  forall s, Matches (deriv c r) s -> Matches r (String c s).
Proof.
  induction r as [| |p|a IHa b IHb|a IHa b IHb|a IHa]; intros s; simpl.
  - inversion 1.
  - inversion 1.
  - destruct (p c) eqn:E; inversion 1; subst. by constructor.
  - destruct (nullable a) eqn:E.
    + inversion 1 as [| | | ? ? ? H1 | ? ? ? H1 | |]; subst.
      * inversion H1; subst. rewrite <- app_cons_s. constructor; auto.
      * change (String c s) with (EmptyString +:+ String c s).
        constructor; [by apply nullable_Matches|auto].
    + inversion 1; subst. rewrite <- app_cons_s. constructor; auto.
  - inversion 1; subst; [apply MAltL|apply MAltR]; auto.
  - inversion 1; subst. rewrite <- app_cons_s. constructor; auto.
Qed.

Lemma deriv_Matches (c : ascii) (r : re) (s : string) :
  Matches r (String c s) -> Matches (deriv c r) s.
Proof.
  intros H. remember (String c s) as cs eqn:E. revert s E.
  induction H as [|p c'|a b s1 t H1 IH1 H2 IH2|a b s1 H1 IH1|a b s1 H1 IH1
                  | |a s1 t H1 IH1 H2 IH2]; intros s E; simpl; try done.
  - injection E as -> <-. rewrite H. constructor.
  - destruct s1 as [|c1 s1].
    + rewrite app_nil_s in E. subst t.
      assert (nullable a = true) as -> by by apply nullable_Matches.
      apply MAltR. by apply IH2.
    + rewrite app_cons_s in E. injection E as -> <-.
      assert (Matches (Seq (deriv c a) b) (s1 +:+ t)) as Hseq
        by (constructor; [by apply IH1|done]).
      destruct (nullable a); [by apply MAltL|done].
  - apply MAltL. by apply IH1.
  - apply MAltR. by apply IH1.
  - destruct s1 as [|c1 s1].
    + rewrite app_nil_s in E. by apply IH2.
    + rewrite app_cons_s in E. injection E as -> <-.
      constructor; [by apply IH1|done].
Qed.

Lemma test_Matches (r : re) (s : string) : test r s = true <-> Matches r s.
Proof.
  revert r. induction s as [|c s IH]; intros r; simpl.
  - apply nullable_Matches.
  - rewrite IH. split; [apply Matches_deriv|apply deriv_Matches].
Qed.

Lemma Matches_Class (p : ascii -> bool) (s : string) :
  Matches (Class p) s <-> exists c, s = String c EmptyString /\ p c = true.
Proof.
  split.
  - inversion 1; subst. eauto.
  - intros (c & -> & H). by constructor.
Qed.

Lemma Matches_Seq (a b : re) (s : string) :
  Matches (Seq a b) s <-> exists s1 s2, s = s1 +:+ s2 /\ Matches a s1 /\ Matches b s2.
Proof.
  split.
  - inversion 1; subst. eauto.
  - intros (s1 & s2 & -> & H1 & H2). by constructor.
Qed.

Lemma Matches_Star_Class (p : ascii -> bool) (s : string) :
  Matches (Star (Class p)) s <-> all_chars p s = true.
Proof.
  split.
  - intros H. remember (Star (Class p)) as r eqn:Er.
    induction H as [| | | | | |a s1 t H1 _ H2 IH2]; try done.
    injection Er as ->. apply Matches_Class in H1 as (c & -> & Hc).
    rewrite app_cons_s, app_nil_s. simpl. rewrite Hc. by apply IH2.
  - induction s as [|c s IH]; simpl; [constructor|].
    intros [Hc Hs]%andb_true_iff.
    change (String c s) with (String c EmptyString +:+ s).
    constructor; [by constructor|by apply IH].
Qed.

Lemma Matches_Plus_Class (p : ascii -> bool) (s : string) :
  Matches (Plus (Class p)) s <-> s <> EmptyString /\ all_chars p s = true.
Proof.
  unfold Plus. rewrite Matches_Seq. split.
  - intros (s1 & s2 & -> & (c & -> & Hc)%Matches_Class & H2%Matches_Star_Class).
    rewrite app_cons_s, app_nil_s. simpl. by rewrite Hc, H2.
  - intros [Hne Hall]. destruct s as [|c s]; [done|]. simpl in Hall.
    apply andb_true_iff in Hall as [Hc Hs].
    exists (String c EmptyString), s. split; [done|]. split.
    + by constructor.
    + by apply Matches_Star_Class.
Qed.

(** The pattern of the script accepts exactly the strings of the shape
    local@domain.tld. *)
Lemma emailRegex_shape (s : string) :
  RegExp.test emailRegex s = true <-> email_shape s.
Proof.
  rewrite test_Matches. unfold emailRegex, email_shape.
  rewrite Matches_Seq. split.
  - intros (a & s2 & -> & [Ha1 Ha2]%Matches_Plus_Class & H).
    apply Matches_Seq in H as (x & s3 & -> & (c1 & -> & Hc1)%Matches_Class & H).
    apply Matches_Seq in H as (b & s4 & -> & [Hb1 Hb2]%Matches_Plus_Class & H).
    apply Matches_Seq in H as (y & c & -> & (c2 & -> & Hc2)%Matches_Class
                               & [Hc3 Hc4]%Matches_Plus_Class).
    apply Ascii.eqb_eq in Hc1 as <-. apply Ascii.eqb_eq in Hc2 as <-.
    by exists a, b, c.
  - intros (a & b & c & -> & Ha & Hb & Hc & Ha' & Hb' & Hc').
    exists a, ("@" +:+ b +:+ "." +:+ c). split; [done|].
    split; [by apply Matches_Plus_Class|].
    apply Matches_Seq. exists "@", (b +:+ "." +:+ c). split; [done|].
    split; [by constructor|].
    apply Matches_Seq. exists b, ("." +:+ c). split; [done|].
    split; [by apply Matches_Plus_Class|].
    apply Matches_Seq. exists ".", c. split; [done|].
    split; [by constructor|by apply Matches_Plus_Class].
Qed.

(** ** Letter case *)

Lemma lower_char_not_upper (a : ascii) :
  is_upper a = true -> is_upper (lower_char a) = false.
Proof. by destruct a as [[] [] [] [] [] [] [] []]. Qed.

Lemma lower_char_upper_inv (a : ascii) :
  is_upper a = true -> ascii_of_N (N_of_ascii (lower_char a) - 32) = a.
Proof. by destruct a as [[] [] [] [] [] [] [] []]. Qed.

Lemma lower_char_fixed (a : ascii) : is_upper a = false -> lower_char a = a.
Proof. intros H. unfold lower_char. by rewrite H. Qed.

Lemma lower_char_idem (a : ascii) : lower_char (lower_char a) = lower_char a.
Proof.
  destruct (is_upper a) eqn:Ha.
  - by apply lower_char_fixed, lower_char_not_upper.
  - by rewrite !(lower_char_fixed a Ha).
Qed.

(** The capitals that [toLowerCase] maps are the listed ones, each to the
    small letter of its pair. *)
Lemma letter_pairs_lower (a : ascii) :
  is_upper a = true -> (a, lower_char a) ∈ letter_pairs.
Proof.
  destruct a as [[] [] [] [] [] [] [] []]; intros H; try discriminate H;
    by apply (bool_decide_unpack _).
Qed.

Lemma letter_pairs_upper (a b : ascii) :
  (a, b) ∈ letter_pairs -> is_upper a = true /\ b = lower_char a.
Proof.
  assert (Forall (fun p => is_upper p.1 = true /\ p.2 = lower_char p.1) letter_pairs)
    as H.
  { apply (bool_decide_unpack _). by vm_compute. }
  intros Hin. by apply (proj1 (Forall_forall _ _) H (a, b)).
Qed.

Lemma lower_char_same_letter (a b : ascii) :
  lower_char a = lower_char b <-> same_letter a b.
Proof.
  unfold same_letter. split.
  - intros H. destruct (is_upper a) eqn:Ha, (is_upper b) eqn:Hb.
    + left. rewrite <- (lower_char_upper_inv a Ha), <- (lower_char_upper_inv b Hb).
      by rewrite H.
    + rewrite (lower_char_fixed b Hb) in H. subst b.
      right. left. by apply letter_pairs_lower.
    + rewrite (lower_char_fixed a Ha) in H. subst a.
      right. right. by apply letter_pairs_lower.
    + rewrite (lower_char_fixed a Ha), (lower_char_fixed b Hb) in H. by left.
  - intros [->|[[_ ->]%letter_pairs_upper|[_ ->]%letter_pairs_upper]];
      by rewrite ?lower_char_idem.
Qed.

Lemma toLowerCase_ci_equal (s t : string) :
  toLowerCase s = toLowerCase t <-> ci_equal s t.
Proof.
  split.
  - revert t. induction s as [|a s IH]; intros [|b t]; simpl; try done.
    + constructor.
    + intros [= Hab Hst]. constructor; [by apply lower_char_same_letter|by apply IH].
  - induction 1 as [|a b s t Hab _ IH]; [done|].
    simpl. apply lower_char_same_letter in Hab. by rewrite Hab, IH.
Qed.



Lemma includes_empty (s : string) : JsString.includes s EmptyString = true.
Proof. by destruct s. Qed.

(** *** The strings of code units below 256 among those of 16-bit code units *)









(** ** Decimal numerals *)

Lemma nzhead_not_D0 (d d' : Decimal.uint) : Decimal.nzhead d <> Decimal.D0 d'.
Proof. induction d; simpl; congruence. Qed.

Lemma unorm_D0_inv (d d' : Decimal.uint) :
  Decimal.unorm d = Decimal.D0 d' -> d' = Decimal.Nil.
Proof.
  unfold Decimal.unorm. destruct (Decimal.nzhead d) eqn:E; try congruence.
  by apply nzhead_not_D0 in E.
Qed.

Lemma N_to_uint_unorm (n : N) : Decimal.unorm (N.to_uint n) = N.to_uint n.
Proof.
  rewrite <- (DecimalN.Unsigned.of_to n) at 2.
  by rewrite DecimalN.Unsigned.to_of.
Qed.

Lemma N_to_uint_nonnil (n : N) : N.to_uint n <> Decimal.Nil.
Proof. rewrite <- N_to_uint_unorm. apply unorm_nonnil. Qed.

Lemma to_uint_no_leading_zero (n : N) :
  match NilEmpty.string_of_uint (N.to_uint n) with
  | EmptyString => False
  | String c r => (c =? "0")%char && negb (String.eqb r EmptyString) = false
  end.
Proof.
  pose proof (N_to_uint_unorm n) as Hn.
  pose proof (N_to_uint_nonnil n) as Hnil.
  destruct (N.to_uint n) as [|d|d|d|d|d|d|d|d|d|d]; try done.
  by apply unorm_D0_inv in Hn as ->.
Qed.

Lemma Number_toString_nonneg (n : N) :
  Js.Number_toString (Z.of_N n) = NilEmpty.string_of_uint (N.to_uint n).
Proof.
  unfold Js.Number_toString. destruct n as [|p]; [done|].
  simpl. pose proof (N_to_uint_nonnil (Npos p)) as H. simpl in H.
  by destruct (Pos.to_uint p).
Qed.

Lemma Number_toString_neg (p : positive) :
  Js.Number_toString (Zneg p) = String "-" (NilEmpty.string_of_uint (N.to_uint (Npos p))).
Proof.
  unfold Js.Number_toString. simpl.
  pose proof (N_to_uint_nonnil (Npos p)) as H. simpl in H.
  by destruct (Pos.to_uint p).
Qed.

Lemma Z_to_int_proper (z : Z) :
  Z.to_int z <> Decimal.Pos Decimal.Nil /\ Z.to_int z <> Decimal.Neg Decimal.Nil.
Proof.
  destruct z as [|p|p]; simpl; [done| |];
    pose proof (N_to_uint_nonnil (N.pos p)) as H; simpl in H; split; congruence.
Qed.

(** Distinct clock readings give distinct ids. *)
Lemma Number_toString_inj (a b : Z) :
  Js.Number_toString a = Js.Number_toString b -> a = b.
Proof.
  unfold Js.Number_toString. intros H.
  destruct (Z_to_int_proper a) as [Ha1 Ha2], (Z_to_int_proper b) as [Hb1 Hb2].
  apply DecimalZ.to_int_inj.
  pose proof (NilZero.isi _ Ha1 Ha2) as Ea. pose proof (NilZero.isi _ Hb1 Hb2) as Eb.
  rewrite H in Ea. congruence.
Qed.

Lemma string_of_uint_head (d : Decimal.uint) :
  d <> Decimal.Nil ->
  exists c s, NilEmpty.string_of_uint d = String c s /\ is_digit c = true.
Proof. destruct d; try done; intros _; simpl; eauto. Qed.

(** ** JSON text: reading back what was written *)

Lemma read_chars_quote_char (c : ascii) (r : string) :
  read_chars (quote_char c +:+ r)
  = '(t, rest) ← read_chars r; Some (String c t, rest).
Proof. by destruct c as [[] [] [] [] [] [] [] []]. Qed.

Lemma read_chars_quote_body (s rest : string) :
  read_chars (quote_body s +:+ String dquote rest) = Some (s, rest).
Proof.
  induction s as [|c s IH]; [done|].
  simpl quote_body. by rewrite app_assoc_s, read_chars_quote_char, IH.
Qed.

Lemma read_string_quote (s rest : string) :
  read_string (quote s +:+ rest) = Some (s, rest).
Proof.
  unfold quote. rewrite app_cons_s, app_assoc_s, app_cons_s, app_nil_s.
  apply read_chars_quote_body.
Qed.

Lemma span_digits_print (d : Decimal.uint) (rest : string) :
  no_digit_head rest = true ->
  span_digits (NilEmpty.string_of_uint d +:+ rest) = (NilEmpty.string_of_uint d, rest).
Proof.
  intros Hrest.
  induction d; simpl NilEmpty.string_of_uint;
    rewrite ?app_cons_s, ?app_nil_s; simpl; rewrite ?IHd; try done.
  destruct rest as [|c r]; [done|]. simpl in *.
  by destruct (is_digit c).
Qed.

Lemma read_digits_print (n : N) (rest : string) :
  no_digit_head rest = true ->
  read_digits (NilEmpty.string_of_uint (N.to_uint n) +:+ rest) = Some (n, rest).
Proof.
  intros Hrest. unfold read_digits. rewrite span_digits_print by done.
  pose proof (to_uint_no_leading_zero n) as Hlead.
  destruct (NilEmpty.string_of_uint (N.to_uint n)) as [|c r] eqn:E; [done|].
  rewrite Hlead, <- E, NilEmpty.usu. simpl.
  by rewrite DecimalN.Unsigned.of_to.
Qed.

Lemma is_digit_not_ws (c : ascii) : is_digit c = true -> is_ws c = false.
Proof. by destruct c as [[] [] [] [] [] [] [] []]. Qed.

Lemma read_value_digits (c : ascii) (s : string) :
  is_digit c = true ->
  read_value (String c s)
  = '(n, rest) ← read_digits (String c s); Some (PNum (Z.of_N n), rest).
Proof.
  destruct c as [[] [] [] [] [] [] [] []]; try discriminate; intros _;
    unfold read_value, read_number; simpl;
    by destruct (read_digits _) as [[? ?]|].
Qed.

Lemma read_value_prim (v : JsPrim) (rest : string) :
  no_digit_head rest = true ->
  read_value (stringify_prim v +:+ rest) = Some (v, rest).
Proof.
  intros Hrest. destruct v as [s|n|[]|]; simpl stringify_prim; try done.
  - pose proof (read_string_quote s rest) as H.
    unfold quote in *. rewrite app_cons_s in *.
    unfold read_value. change (Ascii.eqb dquote dquote) with true. cbv iota.
    by rewrite H.
  - destruct n as [|p|p].
    + change (Js.Number_toString 0) with (NilEmpty.string_of_uint (N.to_uint 0)).
      pose proof (read_digits_print 0 rest Hrest) as H.
      change (NilEmpty.string_of_uint (N.to_uint 0)) with "0" in *.
      rewrite app_cons_s in *. rewrite read_value_digits by done. by rewrite H.
    + change (Z.pos p) with (Z.of_N (N.pos p)).
      rewrite Number_toString_nonneg.
      pose proof (read_digits_print (N.pos p) rest Hrest) as H.
      destruct (string_of_uint_head (N.to_uint (N.pos p))) as (c & s & E & Hc);
        [apply N_to_uint_nonnil|].
      rewrite E in *. rewrite app_cons_s in *.
      rewrite read_value_digits by done. by rewrite H.
    + rewrite Number_toString_neg, app_cons_s.
      unfold read_value, read_number.
      change (Ascii.eqb "-" dquote) with false. change (Ascii.eqb "-" "t") with false.
      change (Ascii.eqb "-" "f") with false. change (Ascii.eqb "-" "n") with false.
      change (Ascii.eqb "-" "-") with true. cbv iota.
      by rewrite read_digits_print.
Qed.

Lemma skip_ws_head (c : ascii) (s : string) :
  is_ws c = false -> skip_ws (String c s) = String c s.
Proof. intros H. simpl. by rewrite H. Qed.

Lemma stringify_prim_head (v : JsPrim) :
  exists c s, stringify_prim v = String c s /\ is_ws c = false.
Proof.
  destruct v as [s|n|[]|]; simpl stringify_prim;
    try (eexists _, _; split; reflexivity).
  destruct n as [|p|p].
  - by exists "0"%char, EmptyString.
  - change (Z.pos p) with (Z.of_N (N.pos p)). rewrite Number_toString_nonneg.
    destruct (string_of_uint_head (N.to_uint (N.pos p))) as (c & s & E & Hc);
      [apply N_to_uint_nonnil|].
    rewrite E. eauto using is_digit_not_ws.
  - rewrite Number_toString_neg. eexists _, _; split; reflexivity.
Qed.

Lemma read_member_step (fuel : nat) (o : Client) (k : string) (v : JsPrim)
    (c : ascii) (r : string) :
  is_ws c = false -> is_digit c = false ->
  read_members (S fuel) o (stringify_member (k, v) +:+ String c r)
  = if (c =? ",")%char then read_members fuel (<[k:=v]> o) (skip_ws r)
    else if (c =? "}")%char then Some (<[k:=v]> o, r)
    else None.
Proof.
  intros Hws Hdig. cbn [read_members]. unfold stringify_member. cbn [fst snd].
  rewrite app_assoc_s, read_string_quote. cbn [mbind option_bind].
  rewrite app_assoc_s, app_cons_s, app_nil_s.
  rewrite skip_ws_head by done. cbn [expect].
  change (Ascii.eqb ":" ":") with true. cbv iota. cbn [mbind option_bind].
  destruct (stringify_prim_head v) as (c' & s' & E & Hc').
  assert (skip_ws (stringify_prim v +:+ String c r) = stringify_prim v +:+ String c r) as ->.
  { rewrite E, app_cons_s. by apply skip_ws_head. }
  rewrite read_value_prim by (simpl; by rewrite Hdig).
  cbn [mbind option_bind]. by rewrite skip_ws_head.
Qed.

Lemma join_comma_cons (x y : string) (l : list string) :
  join_comma (x :: y :: l) = x +:+ String "," (join_comma (y :: l)).
Proof. reflexivity. Qed.

Lemma join_members_head (kvs : list (string * JsPrim)) :
  kvs <> [] ->
  exists s, join_comma (stringify_member <$> kvs) = String dquote s.
Proof.
  destruct kvs as [|[k v] [|kv kvs]]; [done| |]; intros _.
  - simpl. unfold stringify_member, quote. rewrite app_cons_s. eauto.
  - rewrite !fmap_cons, join_comma_cons. unfold stringify_member at 1, quote.
    rewrite !app_cons_s. eauto.
Qed.

Lemma read_members_print (kvs : list (string * JsPrim)) :
  forall (fuel : nat) (o : Client) (rest : string),
    kvs <> [] -> (length kvs <= fuel)%nat ->
    read_members fuel o (join_comma (stringify_member <$> kvs) +:+ String "}" rest)
    = Some (foldl (fun o kv => <[kv.1:=kv.2]> o) o kvs, rest).
Proof.
  induction kvs as [|[k v] kvs IH]; [done|].
  intros fuel o rest _ Hfuel. destruct fuel as [|fuel]; [simpl in Hfuel; lia|].
  destruct kvs as [|kv kvs].
  - simpl join_comma. by rewrite read_member_step.
  - rewrite !fmap_cons, join_comma_cons, <- fmap_cons.
    rewrite app_assoc_s, app_cons_s, read_member_step by done.
    change (Ascii.eqb "," ",") with true. cbv iota.
    destruct (join_members_head (kv :: kvs)) as [s E]; [done|].
    assert (skip_ws (join_comma (stringify_member <$> kv :: kvs) +:+ String "}" rest)
            = join_comma (stringify_member <$> kv :: kvs) +:+ String "}" rest) as ->.
    { rewrite E, app_cons_s. by apply skip_ws_head. }
    rewrite IH; [done|done|]. simpl in *. lia.
Qed.

Lemma foldl_insert_list_to_map (l : list (string * JsPrim)) :
  forall o : Client,
    NoDup l.*1 ->
    foldl (fun o kv => <[kv.1:=kv.2]> o) o l = list_to_map l ∪ o.
Proof.
  induction l as [|[k v] l IH]; intros o Hnd; simpl.
  - by rewrite (left_id_L ∅ (∪)).
  - apply NoDup_cons in Hnd as [Hk Hnd]. rewrite IH by done.
    rewrite <- insert_union_l. apply symmetry, insert_union_r.
    by apply not_elem_of_list_to_map_1.
Qed.

Lemma foldl_insert_map_to_list (o : Client) :
  foldl (fun o kv => <[kv.1:=kv.2]> o) ∅ (map_to_list o) = o.
Proof.
  rewrite foldl_insert_list_to_map by apply NoDup_fst_map_to_list.
  by rewrite (right_id_L ∅ (∪)), list_to_map_to_list.
Qed.

Lemma read_object_print (o : Client) (fuel : nat) (rest : string) :
  (size o <= fuel)%nat ->
  read_object fuel (stringify_object o +:+ rest) = Some (o, rest).
Proof.
  intros Hfuel. unfold read_object, stringify_object.
  rewrite !app_assoc_s, !app_cons_s, !app_nil_s. cbn [expect].
  change (Ascii.eqb "{" "{") with true. cbv iota. cbn [mbind option_bind].
  destruct (map_to_list o) as [|kv kvs] eqn:E.
  - apply map_to_list_empty_iff in E as ->. by simpl.
  - destruct (join_members_head (kv :: kvs)) as [s Es]; [done|].
    assert (skip_ws (join_comma (stringify_member <$> kv :: kvs) +:+ String "}" rest)
            = join_comma (stringify_member <$> kv :: kvs) +:+ String "}" rest) as ->.
    { rewrite Es, app_cons_s. by apply skip_ws_head. }
    rewrite Es at 1. rewrite app_cons_s.
    change (Ascii.eqb dquote "}") with false. cbv iota.
    rewrite read_members_print; [|done|].
    + by rewrite <- E, foldl_insert_map_to_list.
    + rewrite <- E. unfold size, map_size in Hfuel. by rewrite length_map_to_list.
Qed.

Lemma join_objects_head (l : list Client) :
  l <> [] -> exists s, join_comma (stringify_object <$> l) = String "{" s.
Proof.
  destruct l as [|o [|o' l]]; [done| |]; intros _.
  - simpl. unfold stringify_object. rewrite app_cons_s. eauto.
  - rewrite !fmap_cons, join_comma_cons. unfold stringify_object at 1.
    rewrite !app_cons_s. eauto.
Qed.

Lemma read_elements_print (l : list Client) :
  forall (fuel : nat) (rest : string),
    l <> [] ->
    (forall o, o ∈ l -> (length l + size o <= fuel)%nat) ->
    read_elements fuel (join_comma (stringify_object <$> l) +:+ String "]" rest)
    = Some (l, rest).
Proof.
  induction l as [|o l IH]; [done|].
  intros fuel rest _ Hfuel.
  pose proof (Hfuel o (list_elem_of_here _ _)) as Ho. simpl in Ho.
  destruct fuel as [|fuel]; [lia|]. cbn [read_elements].
  destruct l as [|o' l].
  - simpl join_comma. rewrite read_object_print by lia. by simpl.
  - rewrite !fmap_cons, join_comma_cons, <- fmap_cons.
    rewrite app_assoc_s, app_cons_s, read_object_print by lia.
    cbn [mbind option_bind]. rewrite skip_ws_head by done.
    change (Ascii.eqb "," ",") with true. cbv iota.
    destruct (join_objects_head (o' :: l)) as [s E]; [done|].
    assert (skip_ws (join_comma (stringify_object <$> o' :: l) +:+ String "]" rest)
            = join_comma (stringify_object <$> o' :: l) +:+ String "]" rest) as ->.
    { rewrite E, app_cons_s. by apply skip_ws_head. }
    rewrite IH; [done|done|].
    intros o'' Hin. specialize (Hfuel o'' (list_elem_of_further _ _ _ Hin)).
    simpl in *. lia.
Qed.

Lemma read_array_print (l : list Client) (fuel : nat) (rest : string) :
  (forall o, o ∈ l -> (length l + size o <= fuel)%nat) ->
  read_array fuel (stringify l +:+ rest) = Some (l, rest).
Proof.
  intros Hfuel. unfold read_array, stringify.
  rewrite !app_assoc_s, !app_cons_s, !app_nil_s. cbn [expect].
  change (Ascii.eqb "[" "[") with true. cbv iota. cbn [mbind option_bind].
  destruct l as [|o l]; [done|].
  destruct (join_objects_head (o :: l)) as [s E]; [done|].
  assert (skip_ws (join_comma (stringify_object <$> o :: l) +:+ String "]" rest)
          = join_comma (stringify_object <$> o :: l) +:+ String "]" rest) as ->.
  { rewrite E, app_cons_s. by apply skip_ws_head. }
  rewrite E at 1. rewrite app_cons_s.
  change (Ascii.eqb "{" "]") with false. cbv iota.
  by apply read_elements_print.
Qed.

(** *** The length of the written text bounds its parts *)

Lemma length_join_comma_ge (xs : list string) :
  Forall (fun x => (1 <= String.length x)%nat) xs ->
  (length xs <= String.length (join_comma xs))%nat.
Proof.
  induction 1 as [|x xs Hx Hxs IH]; [done|].
  destruct xs as [|y xs]; [simpl; lia|].
  rewrite join_comma_cons, length_app_s. simpl in *. lia.
Qed.

Lemma length_join_comma_elem (xs : list string) (x0 : string) :
  Forall (fun x => (1 <= String.length x)%nat) xs ->
  x0 ∈ xs ->
  (length xs + String.length x0 <= String.length (join_comma xs) + 1)%nat.
Proof.
  induction 1 as [|x xs Hx Hxs IH]; [by intros ?%elem_of_nil|].
  intros Hin. pose proof (length_join_comma_ge xs Hxs) as Hge.
  destruct xs as [|y xs].
  - apply list_elem_of_singleton in Hin as ->. simpl. lia.
  - rewrite join_comma_cons, length_app_s.
    apply elem_of_cons in Hin as [->|Hin].
    + simpl in *. lia.
    + specialize (IH Hin). simpl in *. lia.
Qed.

Lemma length_stringify_member (kv : string * JsPrim) :
  (1 <= String.length (stringify_member kv))%nat.
Proof. unfold stringify_member, quote. rewrite app_cons_s. simpl. lia. Qed.

Lemma length_stringify_object (o : Client) :
  (size o + 2 <= String.length (stringify_object o))%nat.
Proof.
  unfold stringify_object. rewrite !length_app_s. simpl.
  pose proof (length_join_comma_ge (stringify_member <$> map_to_list o)) as H.
  rewrite length_fmap, length_map_to_list in H.
  unfold size, map_size.
  assert (Forall (fun x => (1 <= String.length x)%nat) (stringify_member <$> map_to_list o)) as HF.
  { apply Forall_fmap, Forall_forall. intros kv _. apply length_stringify_member. }
  specialize (H HF). unfold size, map_size in H. lia.
Qed.

Lemma parse_stringify (l : list Client) : parse (stringify l) = Some l.
Proof.
  unfold parse.
  assert (skip_ws (stringify l) = stringify l) as ->.
  { unfold stringify. by rewrite app_cons_s. }
  rewrite <- (app_nil_r_s (stringify l)) at 2.
  rewrite read_array_print; [done|].
  intros o Ho. unfold stringify. rewrite !length_app_s. simpl.
  pose proof (length_stringify_object o) as Hobj.
  assert (Forall (fun x => (1 <= String.length x)%nat) (stringify_object <$> l)) as HF.
  { apply Forall_fmap, Forall_forall. intros o' _.
    pose proof (length_stringify_object o'). simpl. lia. }
  pose proof (length_join_comma_elem _ (stringify_object o) HF) as H.
  rewrite length_fmap in H.
  specialize (H (list_elem_of_fmap_2 _ _ _ Ho)). lia.
Qed.

Lemma stringify_nonempty (l : list Client) :
  String.eqb (JSON.stringify l) EmptyString = false.
Proof. unfold JSON.stringify. by rewrite app_cons_s. Qed.

(** *** Fuel: the length of the text is always enough *)

Lemma skip_ws_length (s : string) : (String.length (skip_ws s) <= String.length s)%nat.
Proof. induction s as [|c s IH]; simpl; [lia|]. destruct (is_ws c); simpl; lia. Qed.

Lemma read_chars_length (s t rest : string) :
  read_chars s = Some (t, rest) -> (String.length rest < String.length s)%nat.
Proof.
  remember (String.length s) as n eqn:En. revert s t rest En.
  induction n as [n IHn] using (well_founded_induction Nat.lt_wf_0).
  intros s t rest ->.
  assert (forall s' t' rest', (String.length s' < String.length s)%nat ->
            read_chars s' = Some (t', rest') ->
            (String.length rest' < String.length s')%nat) as IH
    by (intros s' t' rest' Hlt; by apply (IHn _ Hlt)).
  clear IHn. destruct s as [|c r]; [done|]. cbn [read_chars].
  destruct (Ascii.eqb c dquote); [intros [= <- <-]; simpl; lia|].
  destruct (Ascii.eqb c backslash).
  - destruct r as [|e r']; [done|]. destruct (Ascii.eqb e "u").
    + destruct r' as [|h1 [|h2 [|h3 [|h4 r'']]]]; try done.
      destruct (hex4 h1 h2 h3 h4) as [n|]; [|done]. cbn [mbind option_bind].
      destruct (n <? 256)%N; [|done].
      destruct (read_chars r'') as [[t' rest']|] eqn:E; [|done].
      intros [= <- <-]. apply IH in E; simpl in *; lia.
    + destruct (unescape e); [|done]. cbn [mbind option_bind].
      destruct (read_chars r') as [[t' rest']|] eqn:E; [|done].
      intros [= <- <-]. apply IH in E; simpl in *; lia.
  - destruct (JsString.code c <? 32)%N; [done|].
    destruct (read_chars r) as [[t' rest']|] eqn:E; [|done].
    intros [= <- <-]. apply IH in E; simpl in *; lia.
Qed.

Lemma read_string_length (s t rest : string) :
  read_string s = Some (t, rest) -> (String.length rest < String.length s)%nat.
Proof.
  destruct s as [|c r]; [done|]. simpl. destruct (Ascii.eqb c dquote); [|done].
  intros H%read_chars_length. lia.
Qed.

Lemma span_digits_length (s d rest : string) :
  span_digits s = (d, rest) ->
  String.length s = (String.length d + String.length rest)%nat.
Proof.
  revert d rest. induction s as [|c s IH]; intros d rest; simpl.
  - by intros [= <- <-].
  - destruct (is_digit c); [|by intros [= <- <-]].
    destruct (span_digits s) as [d' rest']. intros [= <- <-].
    simpl. by rewrite (IH d' rest').
Qed.

Lemma read_digits_length (s : string) (n : N) (rest : string) :
  read_digits s = Some (n, rest) -> (String.length rest < String.length s)%nat.
Proof.
  unfold read_digits. destruct (span_digits s) as [d rest'] eqn:E.
  apply span_digits_length in E. destruct d as [|c d]; [done|].
  destruct (_ && _); [done|].
  destruct (NilEmpty.uint_of_string _); [|done]. intros [= <- <-].
  simpl in E. lia.
Qed.

Lemma strip_prefix_length (w s rest : string) :
  strip_prefix w s = Some rest ->
  String.length s = (String.length w + String.length rest)%nat.
Proof.
  revert s. induction w as [|a w IH]; intros [|b s]; simpl; try done.
  - by intros [= <-].
  - by intros [= <-].
  - destruct (Ascii.eqb a b); [|done]. intros H%IH. lia.
Qed.

Lemma read_value_length (s : string) (v : JsPrim) (rest : string) :
  read_value s = Some (v, rest) -> (String.length rest < String.length s)%nat.
Proof.
  unfold read_value. destruct s as [|c r]; [done|].
  assert (forall w p, w <> EmptyString -> read_word w p (String c r) = Some (v, rest) ->
            (String.length rest < String.length (String c r))%nat) as Hword.
  { intros w p Hw. unfold read_word.
    destruct (strip_prefix w (String c r)) as [rest'|] eqn:E; [|done].
    intros [= <- <-]. apply strip_prefix_length in E. destruct w; [done|].
    simpl in *. lia. }
  destruct (Ascii.eqb c dquote).
  { destruct (read_string (String c r)) as [[t rest']|] eqn:E; [|done].
    intros [= <- <-]. by apply read_string_length in E. }
  destruct (Ascii.eqb c "t"); [by apply Hword|].
  destruct (Ascii.eqb c "f"); [by apply Hword|].
  destruct (Ascii.eqb c "n"); [by apply Hword|].
  unfold read_number. destruct (Ascii.eqb c "-").
  - destruct (read_digits r) as [[n rest']|] eqn:E; [|done].
    intros [= <- <-]. apply read_digits_length in E. simpl. lia.
  - destruct (read_digits (String c r)) as [[n rest']|] eqn:E; [|done].
    intros [= <- <-]. by apply read_digits_length in E.
Qed.

Lemma expect_length (c : ascii) (s rest : string) :
  expect c s = Some rest -> String.length s = S (String.length rest).
Proof.
  destruct s as [|c' r]; [done|]. simpl. destruct (Ascii.eqb c' c); [|done].
  by intros [= <-].
Qed.

Lemma read_members_fuel (fuel : nat) :
  forall (o : Client) (s : string) (o' : Client) (rest : string),
    read_members fuel o s = Some (o', rest) ->
    (String.length rest < String.length s)%nat
    /\ forall fuel', (String.length s <= fuel')%nat ->
                     read_members fuel' o s = Some (o', rest).
Proof.
  induction fuel as [|fuel IH]; intros o s o' rest; [done|]. cbn [read_members].
  destruct (read_string s) as [[k s1]|] eqn:E1; [|done]. cbn [mbind option_bind].
  destruct (expect ":" (skip_ws s1)) as [s2|] eqn:E2; [|done]. cbn [mbind option_bind].
  destruct (read_value (skip_ws s2)) as [[v s3]|] eqn:E3; [|done].
  cbn [mbind option_bind].
  pose proof (read_string_length _ _ _ E1). pose proof (skip_ws_length s1).
  pose proof (expect_length _ _ _ E2). pose proof (skip_ws_length s2).
  pose proof (read_value_length _ _ _ E3). pose proof (skip_ws_length s3).
  destruct (skip_ws s3) as [|c r] eqn:E4; [done|]. simpl in *.
  pose proof (skip_ws_length r).
  assert (forall fuel', (String.length s <= fuel')%nat -> exists f, fuel' = S f
            /\ (String.length (skip_ws r) <= f)%nat) as Hf.
  { intros [|f] Hle; [lia|]. exists f. split; [done|lia]. }
  destruct (Ascii.eqb c ",") eqn:Ec.
  - intros H'. apply IH in H' as [Hlen Hmore]. split; [lia|].
    intros fuel' (f & -> & Hle)%Hf. cbn [read_members].
    rewrite E1. cbn [mbind option_bind]. rewrite E2. cbn [mbind option_bind].
    rewrite E3. cbn [mbind option_bind]. rewrite E4, Ec. by apply Hmore.
  - destruct (Ascii.eqb c "}") eqn:Ec'; [|done]. intros [= <- <-]. split; [lia|].
    intros fuel' (f & -> & Hle)%Hf. cbn [read_members].
    rewrite E1. cbn [mbind option_bind]. rewrite E2. cbn [mbind option_bind].
    rewrite E3. cbn [mbind option_bind]. by rewrite E4, Ec, Ec'.
Qed.

Lemma read_object_fuel (fuel : nat) (s : string) (o : Client) (rest : string) :
  read_object fuel s = Some (o, rest) ->
  (String.length rest < String.length s)%nat
  /\ forall fuel', (String.length s <= S fuel')%nat ->
                   read_object fuel' s = Some (o, rest).
Proof.
  unfold read_object. destruct (expect "{" s) as [s1|] eqn:E1; [|done].
  cbn [mbind option_bind]. pose proof (expect_length _ _ _ E1).
  pose proof (skip_ws_length s1).
  destruct (skip_ws s1) as [|c r] eqn:E2; [done|]. simpl in *.
  destruct (Ascii.eqb c "}").
  - intros [= <- <-]. split; [lia|done].
  - intros H'. apply read_members_fuel in H' as [Hlen Hmore]. simpl in *.
    split; [lia|]. intros fuel' Hle. apply Hmore. lia.
Qed.

Lemma read_elements_fuel (fuel : nat) :
  forall (s : string) (l : list Client) (rest : string),
    read_elements fuel s = Some (l, rest) ->
    (String.length rest < String.length s)%nat
    /\ forall fuel', (String.length s <= fuel')%nat ->
                     read_elements fuel' s = Some (l, rest).
Proof.
  induction fuel as [|fuel IH]; intros s l rest; [done|]. cbn [read_elements].
  destruct (read_object fuel s) as [[o s1]|] eqn:E1; [|done].
  cbn [mbind option_bind].
  apply read_object_fuel in E1 as [Hlen1 Hmore1]. pose proof (skip_ws_length s1).
  destruct (skip_ws s1) as [|c r] eqn:E2; [done|]. simpl in *.
  pose proof (skip_ws_length r).
  assert (forall fuel', (String.length s <= fuel')%nat -> exists f, fuel' = S f
            /\ (String.length (skip_ws r) <= f)%nat /\ (String.length s <= S f)%nat)
    as Hf.
  { intros [|f] Hle; [lia|]. exists f. split; [done|lia]. }
  destruct (Ascii.eqb c ",") eqn:Ec.
  - destruct (read_elements fuel (skip_ws r)) as [[l' rest']|] eqn:E3; [|done].
    intros [= <- <-]. apply IH in E3 as [Hlen Hmore]. split; [lia|].
    intros fuel' (f & -> & Hle & Hle')%Hf. cbn [read_elements].
    rewrite (Hmore1 f Hle'). cbn [mbind option_bind]. rewrite E2, Ec.
    by rewrite (Hmore f Hle).
  - destruct (Ascii.eqb c "]") eqn:Ec'; [|done]. intros [= <- <-]. split; [lia|].
    intros fuel' (f & -> & Hle & Hle')%Hf. cbn [read_elements].
    rewrite (Hmore1 f Hle'). cbn [mbind option_bind]. by rewrite E2, Ec, Ec'.
Qed.

(** If the text can be read with some fuel, [parse] reads it: a [None] of
    [parse] is never for want of fuel. *)
Lemma parse_fuel_adequate (fuel : nat) (text : string) (l : list Client)
    (rest : string) :
  read_array fuel (skip_ws text) = Some (l, rest) ->
  skip_ws rest = EmptyString ->
  parse text = Some l.
Proof.
  intros H Hrest. unfold parse.
  assert (read_array (String.length text) (skip_ws text) = Some (l, rest)) as ->.
  { pose proof (skip_ws_length text) as Hlen. revert H. unfold read_array.
    destruct (expect "[" (skip_ws text)) as [s1|] eqn:E1; [|done].
    cbn [mbind option_bind]. pose proof (expect_length _ _ _ E1).
    pose proof (skip_ws_length s1).
    destruct (skip_ws s1) as [|c r] eqn:E2; [done|].
    destruct (Ascii.eqb c "]"); [done|].
    intros H'. apply read_elements_fuel in H' as [_ Hmore]. apply Hmore.
    simpl in *. lia. }
  cbn [mbind option_bind]. by rewrite Hrest.
Qed.

(** ** Running computations *)

(** Unfolds the monad down to functions on states. *)
Ltac run_M :=
  unfold exec, eval, mbind, M_bind, mret, M_ret, throw, gets, modify, lift,
    set_localStorage, set_validationMessage, alert, set_page, set_tableRows,
    set_tableHidden, set_viewed in *.

Lemma bind_run {A B : Type} (m : M A) (k : A -> M B) (w w1 : World) (a : A) :
  m w = (Normal a, w1) -> (m ≫= k) w = k a w1.
Proof. intros H. unfold mbind, M_bind. by rewrite H. Qed.

(** ** The repository *)

Lemma getClients_run (w : World) : getClients w = (eval getClients w, w).
Proof.
  unfold eval, getClients, mbind, M_bind, gets, mret, M_ret, throw. simpl.
  destruct (localStorage w !! CLIENTS_STORAGE_KEY) as [text|]; [|done].
  destruct (String.eqb text EmptyString); [done|].
  by destruct (JSON.parse text).
Qed.

Lemma getClients_storage (w w' : World) :
  localStorage w' = localStorage w -> eval getClients w' = eval getClients w.
Proof.
  intros H. unfold eval, getClients, mbind, M_bind, gets, mret, M_ret, throw.
  simpl. rewrite H.
  destruct (localStorage w !! CLIENTS_STORAGE_KEY) as [text|]; [|done].
  destruct (String.eqb text EmptyString); [done|].
  by destruct (JSON.parse text).
Qed.

Lemma getClients_stored (w : World) (records : list Client) :
  stored w records -> getClients w = (Normal records, w).
Proof. intros H. rewrite getClients_run. by rewrite H. Qed.

Lemma stored_storage (w w' : World) (records : list Client) :
  localStorage w' = localStorage w -> stored w records -> stored w' records.
Proof. intros H Hs. unfold stored. by rewrite (getClients_storage w w'). Qed.

Lemma stored_written (w : World) (records : list Client) :
  localStorage w !! CLIENTS_STORAGE_KEY = Some (JSON.stringify records) ->
  stored w records.
Proof.
  intros H. unfold stored, eval, getClients, mbind, M_bind, gets, mret, M_ret.
  simpl. by rewrite H, stringify_nonempty, parse_stringify.
Qed.

Lemma stored_inj (w : World) (l1 l2 : list Client) :
  stored w l1 -> stored w l2 -> l1 = l2.
Proof. unfold stored. congruence. Qed.

Lemma saveClients_run (records : list Client) (w : World) :
  saveClients records w
  = (Normal tt,
     mkWorld (<[CLIENTS_STORAGE_KEY := JSON.stringify records]> (localStorage w))
       (validationMessage w) (alerts w) (page w) (tableRows w) (tableHidden w)
       (viewed w)).
Proof. reflexivity. Qed.

Lemma findById_stored (clientId : string) (w : World) (records : list Client) :
  stored w records ->
  findById clientId w
  = (Normal (List.find (fun c => Js.strict_eq (c !! "id") (Some (PStr clientId))) records),
     w).
Proof.
  intros Hs. unfold findById. by erewrite bind_run; [|by apply getClients_stored].
Qed.

(** C4. Saving a sequence of client records and loading it again returns a
    sequence equal to the original, with the order and every field of every
    record preserved: the text written by [JSON.stringify] is read back by
    [JSON.parse] as the same sequence, and [getClients] after [saveClients]
    returns it. *)
Theorem load_save_roundtrip (records : list Client) (w : World) :
  JSON.parse (JSON.stringify records) = Some records
  /\ eval getClients (exec (saveClients records) w) = Normal records.
Proof.
  split; [apply parse_stringify|].
  apply stored_written. unfold exec. rewrite saveClients_run. simpl.
  apply lookup_insert_eq.
Qed.

(** ** The list view and the search filter *)

Lemma Array_filter_total {A : Type} (f : A -> Completion bool) (g : A -> bool)
    (l : list A) :
  Forall (fun x => f x = Normal (g x)) l ->
  Array_filter f l = Normal (List.filter g l).
Proof.
  induction 1 as [|x l Hx _ IH]; [done|].
  simpl. rewrite Hx, IH. by destruct (g x).
Qed.

Lemma filter_all {A : Type} (f : A -> bool) (l : list A) :
  Forall (fun x => f x = true) l -> List.filter f l = l.
Proof. induction 1 as [|x l Hx _ IH]; [done|]. simpl. by rewrite Hx, IH. Qed.

Lemma Forall_filter_bool {A : Type} (P : A -> Prop) (f : A -> bool) (l : list A) :
  Forall P l -> Forall P (List.filter f l).
Proof.
  induction 1 as [|x l Hx _ IH]; [constructor|].
  simpl. destruct (f x); [by constructor|done].
Qed.

Lemma matchesFilter_named (filter : string) (c : Client) :
  has_fullName c -> matchesFilter filter c = Normal (nameMatches filter c).
Proof. intros [s H]. unfold matchesFilter, nameMatches. by rewrite H. Qed.

Lemma nameMatches_empty (c : Client) :
  has_fullName c -> nameMatches EmptyString c = true.
Proof. intros [s H]. unfold nameMatches. rewrite H. apply includes_empty. Qed.

Lemma renderClientList_frame (filter : string) (w : World) :
  let w' := exec (renderClientList filter) w in
  localStorage w' = localStorage w /\ alerts w' = alerts w
  /\ validationMessage w' = validationMessage w /\ page w' = page w
  /\ viewed w' = viewed w.
Proof.
  unfold renderClientList. run_M. rewrite getClients_run.
  destruct (eval getClients w) as [clients|e]; [|done]. simpl.
  destruct (length clients =? 0)%nat; [done|]. simpl.
  by destruct (Array_filter (matchesFilter filter) clients).
Qed.

Lemma renderClientList_run (filter : string) (w : World) (records : list Client)
    (keep : Client -> bool) :
  stored w records ->
  Forall (fun c => matchesFilter filter c = Normal (keep c)) records ->
  renderClientList filter w
  = (Normal tt,
     mkWorld (localStorage w) (validationMessage w) (alerts w) (page w)
       (List.filter keep records) (Nat.eqb (length records) 0) (viewed w)).
Proof.
  intros Hs Hk. unfold renderClientList. run_M. rewrite getClients_run.
  unfold stored in Hs. rewrite Hs. simpl.
  destruct records as [|c records]; [done|].
  change (length (c :: records) =? 0)%nat with false. cbv iota. simpl.
  pose proof (Array_filter_total _ _ _ Hk) as H. simpl in H. by rewrite H.
Qed.

Lemma renderClientList_named (filter : string) (w : World) (records : list Client) :
  stored w records ->
  Forall has_fullName records ->
  renderClientList filter w
  = (Normal tt,
     mkWorld (localStorage w) (validationMessage w) (alerts w) (page w)
       (List.filter (nameMatches filter) records) (Nat.eqb (length records) 0)
       (viewed w)).
Proof.
  intros Hs Hn. apply renderClientList_run; [done|].
  eapply Forall_impl; [exact Hn|]. intros c. apply matchesFilter_named.
Qed.

Lemma navigateTo_list_frame (w : World) :
  let w' := exec (navigateTo PageList) w in
  localStorage w' = localStorage w /\ alerts w' = alerts w.
Proof.
  unfold navigateTo.
  pose proof (renderClientList_frame EmptyString
    (mkWorld (localStorage w) (validationMessage w) (alerts w) PageList
       (tableRows w) (tableHidden w) (viewed w))) as H.
  run_M. simpl in *. tauto.
Qed.

Lemma navigateTo_list_run (w : World) (records : list Client) :
  stored w records ->
  Forall has_fullName records ->
  navigateTo PageList w
  = (Normal tt,
     mkWorld (localStorage w) (validationMessage w) (alerts w) PageList
       records (Nat.eqb (length records) 0) (viewed w)).
Proof.
  intros Hs Hn. unfold navigateTo.
  erewrite bind_run; [|reflexivity].
  erewrite renderClientList_named; [|by apply (stored_storage w)|done].
  cbn [localStorage alerts validationMessage page tableRows tableHidden viewed].
  rewrite filter_all; [done|].
  eapply Forall_impl; [exact Hn|]. intros c. apply nameMatches_empty.
Qed.




(** Where the sigma does not end the word, the same query finds it. *)
Example search_finds_inner_sigma :
  Utf16.toLowerCase [931; 913]%N = Some [963; 945]%N
  /\ Utf16.nameIncludes [931; 913]%N [931]%N = Some true.
Proof. by vm_compute. Qed.

(** The scenario of the specification: with Jane and Bob stored, the search
    for a part of the name of Jane, in another case, shows Jane only. *)
Example search_shows_jane_only :
  tableRows (exec (handleSearch (Some "DOE") EmptyString) janeBobWorld)
  = [janeRecord].
Proof. compute_done. Qed.

(** ** Validation *)

Lemma validateFormData_run (data : Client) (w : World) :
  exists (b : bool) (msg : string),
    validateFormData data w
    = (Normal b,
       mkWorld (localStorage w) msg (alerts w) (page w) (tableRows w)
         (tableHidden w) (viewed w)).
Proof.
  unfold validateFormData. run_M.
  destruct (_ || _); [by eexists _, _|].
  destruct (negb _); by eexists _, _.
Qed.

Lemma validateFormData_pure (data : Client) (w w0 : World) :
  eval (validateFormData data) w = eval (validateFormData data) w0.
Proof.
  unfold validateFormData. run_M.
  destruct (_ || _); [done|]. by destruct (negb _).
Qed.

Lemma validateFormData_accepts (data : Client) (w : World) :
  eval (validateFormData data) w = Normal true ->
  Js.truthy (data !! "fullName") = true /\ Js.truthy (data !! "email") = true
  /\ Js.truthy (data !! "startDate") = true
  /\ RegExp.test emailRegex (Js.ToString (data !! "email")) = true.
Proof.
  unfold validateFormData. run_M.
  destruct (Js.truthy (data !! "fullName")), (Js.truthy (data !! "email")),
    (Js.truthy (data !! "startDate")); simpl; try done.
  by destruct (RegExp.test _ _).
Qed.

Lemma getFormData_strings_from (form : list (string * string)) :
  forall (o : Client) (k : string) (v : JsPrim),
    (forall k v, o !! k = Some v -> exists s, v = PStr s) ->
    foldl assignEntry o form !! k = Some v ->
    exists s, v = PStr s.
Proof.
  induction form as [|[k0 v0] form IH]; intros o k v Ho; simpl; [by apply Ho|].
  apply IH. intros k' v'. unfold assignEntry. simpl.
  case_bool_decide; [by apply Ho|]. rewrite lookup_insert.
  case_decide; [|by apply Ho]. intros [= <-]. eauto.
Qed.

Lemma getFormData_strings (form : list (string * string)) (k : string) (v : JsPrim) :
  getFormData form !! k = Some v -> exists s, v = PStr s.
Proof. apply getFormData_strings_from. intros k' v'. by rewrite lookup_empty. Qed.

Lemma getFormData_lookup_from (form : list (string * string)) (k : string) :
  k <> "__proto__" ->
  forall o : Client,
    foldl assignEntry o form !! k
    = match last (filter (fun kv => kv.1 = k) form) with
      | Some kv => Some (PStr kv.2)
      | None => o !! k
      end.
Proof.
  intros Hk. induction form as [|[k0 v0] form IH]; intros o; [done|].
  simpl foldl. rewrite IH. rewrite filter_cons. simpl.
  destruct (decide (k0 = k)) as [->|Hne].
  - rewrite last_cons. destruct (last _); [done|].
    unfold assignEntry. simpl. rewrite bool_decide_eq_false_2 by done.
    by rewrite lookup_insert_eq.
  - destruct (last _); [done|]. unfold assignEntry. simpl.
    case_bool_decide; [done|]. by rewrite lookup_insert_ne.
Qed.

Lemma has_fullName_form (form : list (string * string)) :
  Js.truthy (getFormData form !! "fullName") = true -> has_fullName (getFormData form).
Proof.
  intros H. destruct (getFormData form !! "fullName") as [v|] eqn:E; [|done].
  destruct (getFormData_strings form _ _ E) as [s ->]. by exists s.
Qed.

(** C3, as the code has it.  The name is tested for presence and for being
    non-empty, and it is not trimmed: validation rejects a candidate whose
    [fullName] is missing or the empty string, accepts a candidate only if
    its [fullName] is present and non-empty, and accepts every candidate
    with a non-empty name, of whitespace or not, whose email and start date
    pass their rules. *)
Theorem validate_requires_nonempty_fullName (form : list (string * string))
    (w : World) :
  let data := getFormData form in
  ((data !! "fullName" = None \/ data !! "fullName" = Some (PStr EmptyString)) ->
   eval (validateFormData data) w = Normal false)
  /\ (eval (validateFormData data) w = Normal true ->
      exists s, data !! "fullName" = Some (PStr s) /\ s <> EmptyString)
  /\ ((exists s, data !! "fullName" = Some (PStr s) /\ s <> EmptyString) ->
      Js.truthy (data !! "email") = true ->
      RegExp.test emailRegex (Js.ToString (data !! "email")) = true ->
      Js.truthy (data !! "startDate") = true ->
      eval (validateFormData data) w = Normal true).
Proof.
  intros data. split; [|split].
  - intros [H|H]; unfold validateFormData; run_M; by rewrite H.
  - intros Hv. apply validateFormData_accepts in Hv as (Hname & _).
    destruct (data !! "fullName") as [v|] eqn:E; [|done].
    destruct (getFormData_strings form _ _ E) as [s ->]. exists s. split; [done|].
    intros ->. done.
  - intros (s & Hs & Hne) He Hr Hd. unfold validateFormData. run_M.
    rewrite Hs, He, Hd, Hr. simpl.
    destruct (String.eqb_spec s EmptyString); done.
Qed.

Lemma validate_requires_nonempty_fullName_witness :
  eval (validateFormData (getFormData [("fullName", ""); ("email", "a@b.c")]))
    initialWorld = Normal false
  /\ (exists s, getFormData janeForm !! "fullName" = Some (PStr s) /\ s <> EmptyString)
  /\ eval (validateFormData (getFormData blankNameForm)) initialWorld = Normal true.
Proof.
  split; [|split].
  - apply (validate_requires_nonempty_fullName [("fullName", ""); ("email", "a@b.c")]
             initialWorld).
    right. compute_done.
  - apply (validate_requires_nonempty_fullName janeForm initialWorld). compute_done.
  - apply (validate_requires_nonempty_fullName blankNameForm initialWorld).
    + exists " ". split; [compute_done|discriminate].
    + compute_done.
    + compute_done.
    + compute_done.
Defined.

(** C3, as the specification has it, fails: a name that is a single space,
    empty once trimmed, passes validation. *)
Lemma whitespace_fullName_is_accepted :
  getFormData blankNameForm !! "fullName" = Some (PStr " ")
  /\ only_whitespace " " = true
  /\ eval (validateFormData (getFormData blankNameForm)) initialWorld = Normal true.
Proof. repeat split; compute_done. Qed.

(** ** The form handler *)

Lemma handleFormSubmit_rejected (form : list (string * string)) (now : Z) (w : World) :
  eval (validateFormData (getFormData form)) w = Normal false ->
  handleFormSubmit form now w = (Normal tt, exec (validateFormData (getFormData form)) w).
Proof.
  intros Hv. unfold handleFormSubmit. run_M.
  destruct (validateFormData (getFormData form) w) as [[b|e] w1]; simpl in *; [|done].
  by injection Hv as ->.
Qed.

Lemma handleFormSubmit_rejected_storage (form : list (string * string)) (now : Z)
    (w : World) :
  eval (validateFormData (getFormData form)) w = Normal false ->
  localStorage (exec (handleFormSubmit form now) w) = localStorage w.
Proof.
  intros Hv. unfold exec. rewrite (handleFormSubmit_rejected form now w Hv). simpl.
  destruct (validateFormData_run (getFormData form) w) as (b & msg & E).
  unfold exec. by rewrite E.
Qed.

(** The record the handler writes, and the sequence it writes. *)
Lemma handleFormSubmit_accepted (form : list (string * string)) (now : Z) (w : World)
    (records : list Client) :
  eval (validateFormData (getFormData form)) w = Normal true ->
  stored w records ->
  let data := getFormData form in
  let isEdit := Js.truthy (data !! "id") in
  let data' := if isEdit then data else <["id" := PStr (Js.Number_toString now)]> data in
  let records' :=
    if isEdit then
      (fun client => if Js.strict_eq (client !! "id") (data !! "id") then data else client)
        <$> records
    else (records ++ [data'])%list in
  exists msg : string,
    handleFormSubmit form now w
    = navigateTo PageList
        (mkWorld (<[CLIENTS_STORAGE_KEY := JSON.stringify records']> (localStorage w))
           msg
           (alerts w ++ ["Client " +:+ Js.ToString (data' !! "fullName") +:+ " "
                         +:+ (if isEdit then "updated" else "added")
                         +:+ " successfully!"])%list
           (page w) (tableRows w) (tableHidden w) (viewed w)).
Proof.
  intros Hv Hs data isEdit data' records'.
  unfold handleFormSubmit. fold data.
  destruct (validateFormData_run data w) as (b & msg & E).
  unfold eval in Hv. fold data in Hv. rewrite E in Hv. simpl in Hv.
  injection Hv as ->. exists msg.
  rewrite (bind_run _ _ _ _ _ E). cbn [negb].
  erewrite bind_run; [|by apply getClients_stored, (stored_storage w)].
  fold isEdit. fold data'. fold records'.
  erewrite bind_run; [|apply saveClients_run].
  erewrite bind_run; [|reflexivity]. done.
Qed.

Lemma handleFormSubmit_stored (form : list (string * string)) (now : Z) (w : World)
    (records : list Client) :
  eval (validateFormData (getFormData form)) w = Normal true ->
  stored w records ->
  let data := getFormData form in
  let w' := exec (handleFormSubmit form now) w in
  stored w'
    (if Js.truthy (data !! "id") then
       (fun client => if Js.strict_eq (client !! "id") (data !! "id") then data else client)
         <$> records
     else (records ++ [<["id" := PStr (Js.Number_toString now)]> data])%list)
  /\ alerts w'
     = (alerts w
        ++ ["Client "
            +:+ Js.ToString ((if Js.truthy (data !! "id") then data
                              else <["id" := PStr (Js.Number_toString now)]> data)
                             !! "fullName")
            +:+ " " +:+ (if Js.truthy (data !! "id") then "updated" else "added")
            +:+ " successfully!"])%list.
Proof.
  intros Hv Hs data w'. subst w'.
  destruct (handleFormSubmit_accepted form now w records Hv Hs) as [msg H].
  unfold exec. rewrite H.
  match goal with |- context [navigateTo PageList ?w0] =>
    pose proof (navigateTo_list_frame w0) as [H1 H2] end.
  unfold exec in H1, H2. split.
  - apply stored_written. rewrite H1. cbn [localStorage].
    rewrite lookup_insert_eq. fold data. by destruct (Js.truthy (data !! "id")).
  - by rewrite H2.
Qed.

Lemma handleFormSubmit_completes (form : list (string * string)) (now : Z) (w : World)
    (records : list Client) :
  eval (validateFormData (getFormData form)) w = Normal true ->
  stored w records ->
  Forall has_fullName records ->
  eval (handleFormSubmit form now) w = Normal tt.
Proof.
  intros Hv Hs Hn.
  destruct (handleFormSubmit_accepted form now w records Hv Hs) as [msg H].
  pose proof (handleFormSubmit_stored form now w records Hv Hs) as [Hs' _].
  cbv zeta in *. unfold eval. rewrite H.
  apply validateFormData_accepts in Hv as (Hname & _).
  apply has_fullName_form in Hname.
  erewrite navigateTo_list_run; [done| |].
  - apply stored_written. simpl. apply lookup_insert_eq.
  - destruct (Js.truthy (getFormData form !! "id")).
    + apply Forall_fmap. eapply Forall_impl; [exact Hn|]. intros c Hc. simpl.
      by destruct (Js.strict_eq _ _).
    + apply Forall_app. split; [done|]. apply Forall_singleton.
      destruct Hname as [s Hname]. exists s.
      by rewrite lookup_insert_ne.
Qed.

(** C5. When the candidate fails validation the submit handler returns
    without side effects on the repository: [localStorage] after the
    rejected create or update is what it was before, so the persisted
    sequence of records is identical. *)
Theorem rejected_submit_keeps_repository (form : list (string * string)) (now : Z)
    (w : World) :
  eval (validateFormData (getFormData form)) w = Normal false ->
  let w' := exec (handleFormSubmit form now) w in
  localStorage w' = localStorage w
  /\ eval getClients w' = eval getClients w
  /\ eval (handleFormSubmit form now) w = Normal tt
  /\ alerts w' = alerts w.
Proof.
  intros Hv w'. subst w'. unfold exec, eval.
  rewrite (handleFormSubmit_rejected form now w Hv). simpl.
  destruct (validateFormData_run (getFormData form) w) as (b & msg & E).
  unfold exec. rewrite E. simpl. split; [done|]. split; [|done].
  by apply getClients_storage.
Qed.

Lemma rejected_submit_keeps_repository_witness :
  localStorage (exec (handleFormSubmit badEmailForm 1700000000002) janeWorld)
  = localStorage janeWorld.
Proof.
  apply (rejected_submit_keeps_repository badEmailForm 1700000000002 janeWorld).
  compute_done.
Defined.

(** ** Updating *)

Lemma fmap_replace_none (data : Client) (records : list Client) :
  (forall c, c ∈ records -> c !! "id" <> data !! "id") ->
  (fun client => if Js.strict_eq (client !! "id") (data !! "id") then data else client)
    <$> records = records.
Proof.
  intros H. induction records as [|c records IH]; [done|].
  rewrite fmap_cons, IH.
  - unfold Js.strict_eq. rewrite bool_decide_eq_false_2; [done|].
    apply H, list_elem_of_here.
  - intros c' Hc'. by apply H, list_elem_of_further.
Qed.

(** C1, as the code has it.  An update whose candidate is valid never fails
    for a missing id.  The stored sequence after it is the sequence before
    with every record whose id equals the id of the candidate replaced by the
    candidate, which carries that id, and the result is persisted; when no
    stored record has the id the same sequence is persisted again, the
    handler completes and reports success like any other update. *)
Theorem update_replaces_matching_records (form : list (string * string)) (now : Z)
    (w : World) (records : list Client) :
  eval (validateFormData (getFormData form)) w = Normal true ->
  stored w records ->
  Js.truthy (getFormData form !! "id") = true ->
  let data := getFormData form in
  let w' := exec (handleFormSubmit form now) w in
  stored w'
    ((fun client => if Js.strict_eq (client !! "id") (data !! "id") then data else client)
       <$> records)
  /\ ((forall c, c ∈ records -> c !! "id" <> data !! "id") -> stored w' records)
  /\ alerts w'
     = (alerts w
        ++ ["Client " +:+ Js.ToString (data !! "fullName") +:+ " updated successfully!"])%list
  /\ (Forall has_fullName records -> eval (handleFormSubmit form now) w = Normal tt).
Proof.
  intros Hv Hs Hid data w'.
  pose proof (handleFormSubmit_stored form now w records Hv Hs) as [Hs' Ha].
  cbv zeta in Hs', Ha. fold data in Hs', Ha, Hid. rewrite Hid in Hs', Ha.
  split; [done|]. split; [|split; [done|]].
  - intros Hnone. by rewrite fmap_replace_none in Hs'.
  - intros Hn. by eapply handleFormSubmit_completes.
Qed.

Lemma update_replaces_matching_records_witness :
  stored (exec (handleFormSubmit janeEditForm 1700000000005) janeBobWorld)
    ((fun client =>
        if Js.strict_eq (client !! "id") (getFormData janeEditForm !! "id")
        then getFormData janeEditForm else client)
       <$> [janeRecord; bobRecord]).
Proof.
  refine (proj1 (update_replaces_matching_records janeEditForm 1700000000005
                   janeBobWorld [janeRecord; bobRecord] _ _ _));
    compute_done.
Defined.

(** C1, as the specification has it, fails: an update whose id matches no
    stored record is not an error.  With Jane stored under id 1700000000000,
    the edit of id 42 completes normally and announces success. *)
Lemma update_unknown_id_is_not_an_error :
  stored janeWorld [janeRecord]
  /\ janeRecord !! "id" = Some (PStr "1700000000000")
  /\ getFormData strayEditForm !! "id" = Some (PStr "42")
  /\ eval (handleFormSubmit strayEditForm 1700000000005) janeWorld = Normal tt
  /\ last (alerts (exec (handleFormSubmit strayEditForm 1700000000005) janeWorld))
     = Some "Client Bob Roe updated successfully!"
  /\ stored (exec (handleFormSubmit strayEditForm 1700000000005) janeWorld)
       [janeRecord].
Proof. repeat split; compute_done. Qed.

(** C10. A successful update leaves every record whose id differs from the
    id of the candidate unchanged and at its position, and puts the
    candidate at the position of each record it replaces: the stored
    sequence keeps its length and nothing moves to the end. *)
Theorem update_keeps_positions (form : list (string * string)) (now : Z)
    (w : World) (records : list Client) :
  eval (validateFormData (getFormData form)) w = Normal true ->
  stored w records ->
  Js.truthy (getFormData form !! "id") = true ->
  let data := getFormData form in
  exists records' : list Client,
    stored (exec (handleFormSubmit form now) w) records'
    /\ length records' = length records
    /\ forall (i : nat) (c : Client),
         records !! i = Some c ->
         (c !! "id" <> data !! "id" -> records' !! i = Some c)
         /\ (c !! "id" = data !! "id" -> records' !! i = Some data).
Proof.
  intros Hv Hs Hid data.
  pose proof (handleFormSubmit_stored form now w records Hv Hs) as [Hs' _].
  cbv zeta in Hs'. fold data in Hs', Hid. rewrite Hid in Hs'.
  eexists. split; [exact Hs'|]. split; [by rewrite length_fmap|].
  intros i c Hi. rewrite list_lookup_fmap, Hi. simpl. unfold Js.strict_eq.
  split; intros Hc.
  - by rewrite bool_decide_eq_false_2.
  - by rewrite bool_decide_eq_true_2.
Qed.

Lemma update_keeps_positions_witness :
  exists records' : list Client,
    stored (exec (handleFormSubmit janeEditForm 1700000000005) janeBobWorld) records'
    /\ length records' = 2%nat
    /\ forall (i : nat) (c : Client),
         [janeRecord; bobRecord] !! i = Some c ->
         (c !! "id" <> getFormData janeEditForm !! "id" -> records' !! i = Some c)
         /\ (c !! "id" = getFormData janeEditForm !! "id"
             -> records' !! i = Some (getFormData janeEditForm)).
Proof.
  refine (update_keeps_positions janeEditForm 1700000000005 janeBobWorld
            [janeRecord; bobRecord] _ _ _);
    compute_done.
Defined.

(** ** Creating *)

Lemma find_app_last {A : Type} (p : A -> bool) (l : list A) (x : A) :
  Forall (fun y => p y = false) l -> p x = true -> List.find p (l ++ [x]) = Some x.
Proof.
  induction 1 as [|y l Hy _ IH]; intros Hx; simpl; [by rewrite Hx|].
  rewrite Hy. by apply IH.
Qed.

(** A creation appends the candidate with the clock reading as its id. *)
Lemma create_appends_clock_id (form : list (string * string)) (now : Z) (w : World)
    (records : list Client) :
  eval (validateFormData (getFormData form)) w = Normal true ->
  stored w records ->
  Js.truthy (getFormData form !! "id") = false ->
  stored (exec (handleFormSubmit form now) w)
    (records ++ [<["id" := PStr (Js.Number_toString now)]> (getFormData form)]).
Proof.
  intros Hv Hs Hid.
  pose proof (handleFormSubmit_stored form now w records Hv Hs) as [Hs' _].
  cbv zeta in Hs'. by rewrite Hid in Hs'.
Qed.

(** Where the clock reading is not the id of a stored record, the record
    found under the new id is the candidate with that id. *)
Lemma create_then_findById_fresh (form : list (string * string)) (now : Z) (w : World)
    (records : list Client) :
  eval (validateFormData (getFormData form)) w = Normal true ->
  stored w records ->
  Js.truthy (getFormData form !! "id") = false ->
  (forall c, c ∈ records -> c !! "id" <> Some (PStr (Js.Number_toString now))) ->
  eval (findById (Js.Number_toString now)) (exec (handleFormSubmit form now) w)
  = Normal (Some (<["id" := PStr (Js.Number_toString now)]> (getFormData form))).
Proof.
  intros Hv Hs Hid Hfresh.
  pose proof (create_appends_clock_id form now w records Hv Hs Hid) as Hs'.
  unfold eval. rewrite (findById_stored _ _ _ Hs'). simpl. f_equal.
  apply find_app_last.
  - apply Forall_forall. intros c Hc. unfold Js.strict_eq.
    apply bool_decide_eq_false_2. by apply Hfresh.
  - unfold Js.strict_eq. apply bool_decide_eq_true_2. apply lookup_insert_eq.
Qed.

(** Where the clock reading is not the id of a stored record, a creation
    keeps the ids distinct. *)
Lemma create_keeps_ids_distinct_fresh (form : list (string * string)) (now : Z)
    (w : World) (records : list Client) :
  eval (validateFormData (getFormData form)) w = Normal true ->
  stored w records ->
  Js.truthy (getFormData form !! "id") = false ->
  NoDup ((fun c : Client => c !! "id") <$> records) ->
  (forall c, c ∈ records -> c !! "id" <> Some (PStr (Js.Number_toString now))) ->
  exists records',
    stored (exec (handleFormSubmit form now) w) records'
    /\ NoDup ((fun c : Client => c !! "id") <$> records').
Proof.
  intros Hv Hs Hid Hnd Hfresh. eexists. split; [by apply create_appends_clock_id|].
  rewrite fmap_app. apply NoDup_app. split; [done|]. split.
  - intros i Hi Hi'. apply list_elem_of_fmap in Hi as (c & -> & Hc).
    apply list_elem_of_singleton in Hi'. rewrite lookup_insert_eq in Hi'.
    by apply (Hfresh c).
  - apply NoDup_singleton.
Qed.

(** Two creations at one clock reading store two records under one id,
    whatever the candidates and whatever was stored before. *)
Lemma create_twice_same_reading (form1 form2 : list (string * string)) (now : Z)
    (w : World) (records : list Client) :
  eval (validateFormData (getFormData form1)) w = Normal true ->
  eval (validateFormData (getFormData form2)) w = Normal true ->
  Js.truthy (getFormData form1 !! "id") = false ->
  Js.truthy (getFormData form2 !! "id") = false ->
  stored w records ->
  stored (exec (handleFormSubmit form2 now) (exec (handleFormSubmit form1 now) w))
    (records ++ [<["id" := PStr (Js.Number_toString now)]> (getFormData form1);
                 <["id" := PStr (Js.Number_toString now)]> (getFormData form2)]).
Proof.
  intros Hv1 Hv2 Hid1 Hid2 Hs.
  pose proof (create_appends_clock_id form1 now w records Hv1 Hs Hid1) as Hs1.
  rewrite (validateFormData_pure _ w (exec (handleFormSubmit form1 now) w)) in Hv2.
  pose proof (create_appends_clock_id form2 now _ _ Hv2 Hs1 Hid2) as Hs2.
  by rewrite <- app_assoc in Hs2.
Qed.

(** C2.  The id of a new record is the clock reading of its creation.  Two
    creations at the same reading, here Jane and then Bob at 1700000000000,
    leave two stored records with one id. *)
Theorem create_twice_same_instant_same_id :
  exists a b : Client,
    stored (exec (handleFormSubmit bobForm 1700000000000) janeWorld) [a; b]
    /\ a !! "fullName" = Some (PStr "Jane Doe")
    /\ b !! "fullName" = Some (PStr "Bob Roe")
    /\ a !! "id" = Some (PStr "1700000000000")
    /\ b !! "id" = Some (PStr "1700000000000").
Proof.
  exists janeRecord,
         (<["id" := PStr "1700000000000"]> (getFormData bobForm)).
  repeat split; compute_done.
Qed.

(** C8.  With Jane stored under id 1700000000000, the creation of Bob at the
    clock reading 1700000000000 followed by the lookup of the id given to
    Bob returns the record of Jane, which differs from the candidate in more
    than the id. *)
Theorem create_then_findById_finds_older_record :
  exists found : Client,
    eval (findById "1700000000000")
      (exec (handleFormSubmit bobForm 1700000000000) janeWorld) = Normal (Some found)
    /\ found !! "fullName" = Some (PStr "Jane Doe")
    /\ getFormData bobForm !! "fullName" = Some (PStr "Bob Roe").
Proof.
  exists janeRecord.
  repeat split; compute_done.
Qed.

(** ** Deleting *)

Lemma handleDelete_declined (clientId clientName : string) (w : World) :
  handleDelete clientId clientName false w = (Normal tt, w).
Proof. reflexivity. Qed.

Lemma handleDelete_storage (clientId clientName : string) (w : World)
    (records : list Client) :
  stored w records ->
  localStorage (exec (handleDelete clientId clientName true) w)
  = <[CLIENTS_STORAGE_KEY :=
        JSON.stringify
          (List.filter
             (fun client => negb (Js.strict_eq (client !! "id") (Some (PStr clientId))))
             records)]> (localStorage w).
Proof.
  intros Hs. unfold exec, handleDelete.
  erewrite bind_run; [|by apply getClients_stored].
  erewrite bind_run; [|apply saveClients_run].
  unfold mbind, M_bind.
  match goal with |- context [renderClientList EmptyString ?w0] =>
    pose proof (renderClientList_frame EmptyString w0) as (H & _) end.
  unfold exec in H.
  destruct (renderClientList EmptyString _) as [[[]|e] w2]; simpl in *; by rewrite H.
Qed.

Lemma handleDelete_stored (clientId clientName : string) (w : World)
    (records : list Client) :
  stored w records ->
  stored (exec (handleDelete clientId clientName true) w)
    (List.filter
       (fun client => negb (Js.strict_eq (client !! "id") (Some (PStr clientId))))
       records).
Proof.
  intros Hs. apply stored_written.
  rewrite (handleDelete_storage _ _ _ _ Hs). apply lookup_insert_eq.
Qed.

Lemma handleDelete_completes (clientId clientName : string) (w : World)
    (records : list Client) :
  stored w records ->
  Forall has_fullName records ->
  eval (handleDelete clientId clientName true) w = Normal tt.
Proof.
  intros Hs Hn. unfold eval, handleDelete.
  erewrite bind_run; [|by apply getClients_stored].
  erewrite bind_run; [|apply saveClients_run].
  erewrite bind_run; [done|].
  eapply renderClientList_named.
  - apply stored_written. simpl. apply lookup_insert_eq.
  - by apply Forall_filter_bool.
Qed.

Lemma find_filter_negb {A : Type} (p : A -> bool) (l : list A) :
  List.find p (List.filter (fun x => negb (p x)) l) = None.
Proof.
  induction l as [|x l IH]; [done|]. simpl.
  destruct (p x) eqn:E; simpl; [done|]. by rewrite E.
Qed.

Lemma filter_filter_same {A : Type} (f : A -> bool) (l : list A) :
  List.filter f (List.filter f l) = List.filter f l.
Proof.
  induction l as [|x l IH]; [done|]. simpl.
  destruct (f x) eqn:E; simpl; [|done]. by rewrite E, IH.
Qed.

(** C7. After a confirmed delete of an id the lookup of that id finds
    nothing.  A delete of an id that no stored record has is not an error
    and leaves the stored sequence as it was, and a second delete of the
    same id leaves the repository as the first one left it. *)
Theorem delete_then_findById_not_found (clientId clientName : string) (w : World)
    (records : list Client) :
  stored w records ->
  let w' := exec (handleDelete clientId clientName true) w in
  eval (findById clientId) w' = Normal None
  /\ ((forall c, c ∈ records -> c !! "id" <> Some (PStr clientId)) -> stored w' records)
  /\ (forall name', localStorage (exec (handleDelete clientId name' true) w')
                    = localStorage w')
  /\ (Forall has_fullName records ->
      eval (handleDelete clientId clientName true) w = Normal tt
      /\ forall name', eval (handleDelete clientId name' true) w' = Normal tt).
Proof.
  intros Hs w'.
  pose proof (handleDelete_stored clientId clientName w records Hs) as Hs'.
  fold w' in Hs'. split; [|split; [|split]].
  - unfold eval. rewrite (findById_stored _ _ _ Hs'). simpl.
    by rewrite find_filter_negb.
  - intros Hnone. rewrite filter_all in Hs'; [done|].
    apply Forall_forall. intros c Hc.
    unfold Js.strict_eq. rewrite bool_decide_eq_false_2; [done|]. by apply Hnone.
  - intros name'. rewrite (handleDelete_storage _ _ _ _ Hs'), filter_filter_same.
    subst w'. rewrite (handleDelete_storage _ _ _ _ Hs).
    by rewrite insert_insert_eq.
  - intros Hn. split; [by eapply handleDelete_completes|].
    intros name'. eapply handleDelete_completes; [exact Hs'|].
    by apply Forall_filter_bool.
Qed.

Lemma delete_then_findById_not_found_witness :
  eval (findById "1700000000000")
    (exec (handleDelete "1700000000000" "Jane Doe" true) janeBobWorld)
  = Normal None.
Proof.
  refine (proj1 (delete_then_findById_not_found "1700000000000" "Jane Doe" janeBobWorld
                   [janeRecord; bobRecord] _)).
  compute_done.
Defined.

(** ** The representation of the age *)

Lemma age_is_text_form (form : list (string * string)) :
  age_is_text (getFormData form).
Proof.
  unfold age_is_text. destruct (getFormData form !! "age") as [v|] eqn:E; [|by left].
  destruct (getFormData_strings form _ _ E) as [s ->]. right. by exists s.
Qed.

Lemma getFormData_age (form : list (string * string)) :
  getFormData form !! "age" = PStr <$> ageEntry form.
Proof.
  unfold getFormData, ageEntry. rewrite getFormData_lookup_from by done.
  destruct (last _); [done|]. apply lookup_empty.
Qed.

(** C9, as the code has it.  The handlers never convert the age.  The
    record that an accepted submit writes, appended by a creation or put in
    the place of every record with its id by an update, carries under [age]
    the text of the age control as it was entered, the empty text too, and
    no age when the form has no such control; a rejected submit leaves the
    records as they were.  So in a repository whose records have an age that
    is absent or a string every submit and every delete leaves such a
    repository; the repository of a first visit is one. *)
Theorem age_is_persisted_as_text (w : World) (records : list Client) :
  stored w records ->
  Forall age_is_text records ->
  (forall form now,
      exists records',
        stored (exec (handleFormSubmit form now) w) records'
        /\ Forall age_is_text records'
        /\ (eval (validateFormData (getFormData form)) w = Normal true ->
            exists written : Client,
              written !! "age" = PStr <$> ageEntry form
              /\ records'
                 = if Js.truthy (getFormData form !! "id") then
                     (fun c => if Js.strict_eq (c !! "id") (written !! "id")
                               then written else c) <$> records
                   else (records ++ [written])%list)
        /\ (eval (validateFormData (getFormData form)) w = Normal false ->
            records' = records))
  /\ (forall clientId clientName confirmed,
        exists records', stored (exec (handleDelete clientId clientName confirmed) w) records'
                         /\ Forall age_is_text records')
  /\ stored initialWorld [].
Proof.
  intros Hs Ha. split; [|split; [|done]].
  - intros form now.
    destruct (validateFormData_run (getFormData form) w) as ([] & msg & E).
    + assert (eval (validateFormData (getFormData form)) w = Normal true) as Hv
        by (unfold eval; by rewrite E).
      pose proof (handleFormSubmit_stored form now w records Hv Hs) as [Hs' _].
      eexists. split; [exact Hs'|].
      pose proof (age_is_text_form form) as Hform.
      split; [|split; [|by rewrite Hv]].
      * destruct (Js.truthy (getFormData form !! "id")).
        -- apply Forall_fmap. eapply Forall_impl; [exact Ha|]. intros c Hc. simpl.
           by destruct (Js.strict_eq _ _).
        -- apply Forall_app. split; [done|]. apply Forall_singleton.
           unfold age_is_text in *. by rewrite lookup_insert_ne.
      * intros _. destruct (Js.truthy (getFormData form !! "id")).
        -- exists (getFormData form). split; [apply getFormData_age|done].
        -- exists (<["id" := PStr (Js.Number_toString now)]> (getFormData form)).
           split; [|done]. rewrite lookup_insert_ne by done. apply getFormData_age.
    + assert (eval (validateFormData (getFormData form)) w = Normal false) as Hv
        by (unfold eval; by rewrite E).
      exists records. split; [|split; [done|split; [by rewrite Hv|done]]].
      eapply stored_storage; [|exact Hs].
      by apply handleFormSubmit_rejected_storage.
  - intros clientId clientName [|].
    + eexists. split; [by apply handleDelete_stored|]. by apply Forall_filter_bool.
    + exists records. unfold exec. by rewrite handleDelete_declined.
Qed.

Lemma age_is_persisted_as_text_witness :
  exists records',
    stored (exec (handleFormSubmit bobForm 1700000000001) janeWorld) records'
    /\ Forall age_is_text records'
    /\ (eval (validateFormData (getFormData bobForm)) janeWorld = Normal true ->
        exists written : Client,
          written !! "age" = PStr <$> ageEntry bobForm
          /\ records'
             = if Js.truthy (getFormData bobForm !! "id") then
                 (fun c => if Js.strict_eq (c !! "id") (written !! "id")
                           then written else c) <$> [janeRecord]
               else ([janeRecord] ++ [written])%list)
    /\ (eval (validateFormData (getFormData bobForm)) janeWorld = Normal false ->
        records' = [janeRecord]).
Proof.
  refine (proj1 (age_is_persisted_as_text janeWorld
                   [janeRecord] _ _)
            bobForm 1700000000001).
  - compute_done.
  - apply Forall_singleton. right. exists "30". compute_done.
Defined.

(** Bob left the age control empty and Jane typed 30: the records carry
    the empty text and the text of the two digits. *)
Example age_is_stored_as_entered :
  ageEntry bobForm = Some EmptyString
  /\ ageEntry janeForm = Some "30"
  /\ exists jane bob : Client,
       stored janeBobWorld [jane; bob]
       /\ jane !! "age" = Some (PStr "30")
       /\ bob !! "age" = Some (PStr EmptyString).
Proof.
  split; [done|]. split; [done|].
  exists janeRecord, bobRecord. repeat split; compute_done.
Qed.

(** C9, as the specification has it, fails: the age that Jane entered is
    persisted as the string of its digits, which is neither absent nor an
    integer. *)
Lemma age_is_persisted_as_string :
  exists c : Client,
    stored janeWorld [c]
    /\ c !! "age" = Some (PStr "30")
    /\ ~ age_is_integer c.
Proof.
  exists janeRecord.
  split; [compute_done|]. split; [compute_done|].
  intros [H|[n H]]; vm_compute in H; discriminate.
Qed.

(** ** The scenarios of the specification *)

Example validate_accepts_minimal_record :
  eval (validateFormData
          (getFormData [("fullName", "Jane Doe"); ("email", "jane@example.com");
                        ("startDate", "2024-01-01")])) initialWorld
  = Normal true.
Proof. compute_done. Qed.

Example validate_rejects_missing_fullName :
  eval (validateFormData
          (getFormData [("email", "jane@example.com"); ("startDate", "2024-01-01")]))
    initialWorld
  = Normal false.
Proof. compute_done. Qed.

Example validate_rejects_missing_startDate :
  eval (validateFormData
          (getFormData [("fullName", "Jane Doe"); ("email", "jane@example.com")]))
    initialWorld
  = Normal false.
Proof. compute_done. Qed.

Example validate_rejects_malformed_email :
  eval (validateFormData
          (getFormData [("fullName", "Jane Doe"); ("email", "not-an-email");
                        ("startDate", "2024-01-01")])) initialWorld
  = Normal false.
Proof. compute_done. Qed.

Example load_of_nothing_is_empty : stored initialWorld [].
Proof. compute_done. Qed.

(** Create Jane, create Bob, search for a part of the name of Jane, delete
    Jane, then try to give Bob a malformed email. *)
Example scenario_create_search_delete_update :
  let afterDelete := exec (handleDelete "1700000000000" "Jane Doe" true) janeBobWorld in
  let badBob :=
    [("id", "1700000000001"); ("fullName", "Bob Roe"); ("age", "");
     ("gender", "Male"); ("startDate", "2024-02-01"); ("email", "bob at example");
     ("phone", ""); ("fitnessGoal", "Endurance")] in
  stored janeBobWorld [janeRecord; bobRecord]
  /\ tableRows (exec (handleSearch (Some "jane") EmptyString) janeBobWorld)
     = [janeRecord]
  /\ stored afterDelete [bobRecord]
  /\ stored (exec (handleFormSubmit badBob 1700000000009) afterDelete) [bobRecord]
  /\ validationMessage (exec (handleFormSubmit badBob 1700000000009) afterDelete)
     = "Error: Invalid email format.".
Proof. repeat split; compute_done. Qed.

(** Text with whitespace between the tokens, an escape and a repeated key. *)
Example parse_reads_whitespace_and_escapes :
  JSON.parse
    (" [ { " +:+ JSON.quote "a" +:+ " : " +:+ String JSON.dquote "AA\n"
     +:+ String JSON.dquote " , " +:+ JSON.quote "a" +:+ ":10 } , {} ] ")
  = Some [{["a" := PNum 10]}; ∅].
Proof. compute_done. Qed.

Example parse_rejects_trailing_comma :
  JSON.parse ("[{}," +:+ "]") = None.
Proof. compute_done. Qed.

Example parse_rejects_leading_zero :
  JSON.parse ("[{" +:+ JSON.quote "a" +:+ ":01}]") = None.
Proof. compute_done. Qed.

(** * Further properties of the script *)

(** ** Validation and the form data *)

Lemma truthy_string (v : option JsPrim) (s : string) :
  v = Some (PStr s) -> (Js.truthy v = true <-> s <> EmptyString).
Proof.
  intros ->. simpl. by destruct (String.eqb_spec s EmptyString); simpl; split.
Qed.

(** X1. The form data passes validation exactly when the name and the start
    date are present and non-empty and the email has the shape
    local@domain.tld, its three parts non-empty and free of whitespace and
    at signs. *)
Theorem validateFormData_form_iff (form : list (string * string)) (w : World) :
  eval (validateFormData (getFormData form)) w = Normal true
  <-> exists name email start : string,
        getFormData form !! "fullName" = Some (PStr name) /\ name <> EmptyString
        /\ getFormData form !! "email" = Some (PStr email) /\ email_shape email
        /\ getFormData form !! "startDate" = Some (PStr start)
        /\ start <> EmptyString.
Proof.
  split.
  - intros (Hn & He & Hd & Hr)%validateFormData_accepts.
    destruct (getFormData form !! "fullName") as [vn|] eqn:En; [|done].
    destruct (getFormData form !! "email") as [ve|] eqn:Ee; [|done].
    destruct (getFormData form !! "startDate") as [vd|] eqn:Ed; [|done].
    destruct (getFormData_strings form _ _ En) as [name ->].
    destruct (getFormData_strings form _ _ Ee) as [email ->].
    destruct (getFormData_strings form _ _ Ed) as [start ->].
    exists name, email, start.
    repeat split; try done.
    + by apply (truthy_string _ name eq_refl).
    + by apply emailRegex_shape.
    + by apply (truthy_string _ start eq_refl).
  - intros (name & email & start & En & Hn & Ee & He & Ed & Hd).
    unfold validateFormData. run_M. rewrite En, Ee, Ed.
    apply (truthy_string _ name eq_refl) in Hn.
    apply (truthy_string _ start eq_refl) in Hd.
    apply emailRegex_shape in He as He'.
    assert (Js.truthy (Some (PStr email)) = true) as Hem.
    { apply (truthy_string _ email eq_refl). intros ->.
      destruct He as (a & b & c & H & Ha & _). by destruct a. }
    rewrite Hn, Hem, Hd. simpl. by rewrite He'.
Qed.

Lemma validateFormData_accepted_run (data : Client) (w : World) :
  eval (validateFormData data) w = Normal true ->
  validateFormData data w
  = (Normal true,
     mkWorld (localStorage w) EmptyString (alerts w) (page w) (tableRows w)
       (tableHidden w) (viewed w)).
Proof.
  unfold validateFormData. run_M.
  destruct (_ || _); [done|]. by destruct (negb _).
Qed.

(** X2. Validation writes the validation message and nothing else.  The
    message is empty exactly when the data is accepted; a missing or falsy
    name, email or start date gives the message of the required fields,
    also when the email is malformed as well; a malformed email alone gives
    the message of the email format. *)
Theorem validateFormData_message (data : Client) (w : World) :
  let w' := exec (validateFormData data) w in
  let required :=
    Js.truthy (data !! "fullName") && Js.truthy (data !! "email")
    && Js.truthy (data !! "startDate") in
  (eval (validateFormData data) w = Normal true <-> validationMessage w' = EmptyString)
  /\ (required = false ->
      eval (validateFormData data) w = Normal false
      /\ validationMessage w'
         = "Error: Full Name, Email, and Start Date are required.")
  /\ (required = true ->
      RegExp.test emailRegex (Js.ToString (data !! "email")) = false ->
      eval (validateFormData data) w = Normal false
      /\ validationMessage w' = "Error: Invalid email format.")
  /\ localStorage w' = localStorage w /\ alerts w' = alerts w /\ page w' = page w
  /\ tableRows w' = tableRows w /\ tableHidden w' = tableHidden w
  /\ viewed w' = viewed w.
Proof.
  unfold validateFormData. run_M.
  destruct (Js.truthy (data !! "fullName")), (Js.truthy (data !! "email")),
    (Js.truthy (data !! "startDate")); simpl;
    try (repeat split; done).
  destruct (RegExp.test emailRegex (Js.ToString (data !! "email"))); simpl;
    repeat split; done.
Qed.

Lemma validateFormData_message_witness :
  eval (validateFormData (getFormData badEmailForm)) initialWorld = Normal false
  /\ validationMessage (exec (validateFormData (getFormData badEmailForm)) initialWorld)
     = "Error: Invalid email format.".
Proof.
  refine (proj1 (proj2 (proj2 (validateFormData_message (getFormData badEmailForm)
                                  initialWorld))) _ _);
    compute_done.
Defined.

Lemma getFormData_proto_from (form : list (string * string)) :
  forall o : Client, foldl assignEntry o form !! "__proto__" = o !! "__proto__".
Proof.
  induction form as [|[k0 v0] form IH]; intros o; [done|].
  simpl foldl. rewrite IH. unfold assignEntry. simpl.
  case_bool_decide; [done|]. by rewrite lookup_insert_ne.
Qed.

(** X3. The form data has, under each name but [__proto__], the value of the
    last entry of the form with that name, as a string; a name without an
    entry is absent, and so is [__proto__] whatever the form holds: an entry
    of that name stores nothing and changes no other property. *)
Theorem getFormData_lookup (form : list (string * string)) (k : string) :
  getFormData form !! k
  = (if bool_decide (k = "__proto__") then None
     else (fun kv => PStr kv.2) <$> last (filter (fun kv => kv.1 = k) form))
  /\ getFormData (filter (fun kv => kv.1 <> "__proto__") form) = getFormData form.
Proof.
  split.
  - unfold getFormData. case_bool_decide as Hk.
    + subst k. rewrite getFormData_proto_from. apply lookup_empty.
    + rewrite getFormData_lookup_from by done.
      destruct (last _); [done|]. apply lookup_empty.
  - unfold getFormData. generalize (∅ : Client).
    induction form as [|[k0 v0] form IH]; intros o; [done|].
    destruct (decide (k0 = "__proto__")) as [->|Hk].
    + rewrite filter_cons_False by (simpl; tauto). simpl. by rewrite IH.
    + rewrite filter_cons_True by done. simpl. apply IH.
Qed.

(** An entry named [__proto__] leaves the form data as it is. *)
Example getFormData_proto_entry :
  getFormData [("fullName", "Jane Doe"); ("__proto__", "x"); ("age", "30")]
  = {["fullName" := PStr "Jane Doe"; "age" := PStr "30"]}.
Proof. compute_done. Qed.

(** ** Creating and updating, further *)

Lemma Forall_has_fullName_written (form : list (string * string)) (now : Z)
    (records : list Client) :
  Js.truthy (getFormData form !! "fullName") = true ->
  Forall has_fullName records ->
  let data := getFormData form in
  Forall has_fullName
    (if Js.truthy (data !! "id") then
       (fun client => if Js.strict_eq (client !! "id") (data !! "id") then data else client)
         <$> records
     else (records ++ [<["id" := PStr (Js.Number_toString now)]> data])%list).
Proof.
  intros Hname%has_fullName_form Hn data.
  destruct (Js.truthy (data !! "id")).
  - apply Forall_fmap. eapply Forall_impl; [exact Hn|]. intros c Hc. simpl.
    by destruct (Js.strict_eq _ _).
  - apply Forall_app. split; [done|]. apply Forall_singleton.
    destruct Hname as [s Hname]. exists s. by rewrite lookup_insert_ne.
Qed.

(** The state a successful submit leaves when every stored record has a
    name. *)
Lemma handleFormSubmit_final (form : list (string * string)) (now : Z) (w : World)
    (records : list Client) :
  eval (validateFormData (getFormData form)) w = Normal true ->
  stored w records ->
  Forall has_fullName records ->
  let data := getFormData form in
  let isEdit := Js.truthy (data !! "id") in
  let data' := if isEdit then data else <["id" := PStr (Js.Number_toString now)]> data in
  let records' :=
    if isEdit then
      (fun client => if Js.strict_eq (client !! "id") (data !! "id") then data else client)
        <$> records
    else (records ++ [data'])%list in
  exists msg : string,
    handleFormSubmit form now w
    = (Normal tt,
       mkWorld (<[CLIENTS_STORAGE_KEY := JSON.stringify records']> (localStorage w))
         msg
         (alerts w ++ ["Client " +:+ Js.ToString (data' !! "fullName") +:+ " "
                       +:+ (if isEdit then "updated" else "added")
                       +:+ " successfully!"])%list
         PageList records' (Nat.eqb (length records') 0) (viewed w)).
Proof.
  intros Hv Hs Hn data isEdit data' records'.
  destruct (handleFormSubmit_accepted form now w records Hv Hs) as [msg H].
  cbv zeta in H. fold data isEdit data' records' in H. exists msg. rewrite H.
  apply validateFormData_accepts in Hv as (Hname & _).
  erewrite navigateTo_list_run; [done| |].
  - apply stored_written. simpl. apply lookup_insert_eq.
  - subst records' data' isEdit. destruct (Js.truthy (data !! "id")) eqn:E.
    + pose proof (Forall_has_fullName_written form now records Hname Hn) as H'.
      cbv zeta in H'. fold data in H'. by rewrite E in H'.
    + pose proof (Forall_has_fullName_written form now records Hname Hn) as H'.
      cbv zeta in H'. fold data in H'. by rewrite E in H'.
Qed.

(** X4. A valid submit whose id entry is empty or missing appends one record
    and changes no other: the stored sequence is the earlier one followed by
    the candidate with the decimal of the clock reading as its id and every
    other property as entered.  The handler announces the addition and
    shows the list page with all the records, the new one last. *)
Theorem create_appends_candidate (form : list (string * string)) (now : Z) (w : World)
    (records : list Client) :
  eval (validateFormData (getFormData form)) w = Normal true ->
  stored w records ->
  Js.truthy (getFormData form !! "id") = false ->
  Forall has_fullName records ->
  let data := getFormData form in
  let created := <["id" := PStr (Js.Number_toString now)]> data in
  let w' := exec (handleFormSubmit form now) w in
  stored w' (records ++ [created])
  /\ created !! "id" = Some (PStr (Js.Number_toString now))
  /\ (forall k, k <> "id" -> created !! k = data !! k)
  /\ eval (handleFormSubmit form now) w = Normal tt
  /\ alerts w'
     = (alerts w ++ ["Client " +:+ Js.ToString (data !! "fullName")
                     +:+ " added successfully!"])%list
  /\ page w' = PageList
  /\ tableRows w' = (records ++ [created])%list
  /\ tableHidden w' = false.
Proof.
  intros Hv Hs Hid Hn data created w'.
  destruct (handleFormSubmit_final form now w records Hv Hs Hn) as [msg H].
  cbv zeta in H. fold data in H, Hid. rewrite Hid in H. fold created in H.
  subst w'. unfold exec, eval. rewrite H.
  cbn [fst snd localStorage alerts page tableRows tableHidden].
  split; [|split; [|split; [|split; [|split; [|split; [|split]]]]]]; try done.
  - apply stored_written. cbn [localStorage]. apply lookup_insert_eq.
  - apply lookup_insert_eq.
  - intros k Hk. by apply lookup_insert_ne.
  - unfold created. by rewrite lookup_insert_ne.
  - rewrite length_app. simpl. by rewrite Nat.add_1_r.
Qed.

Lemma create_appends_candidate_witness :
  stored (exec (handleFormSubmit bobForm 1700000000001) janeWorld)
    ([janeRecord] ++ [<["id" := PStr (Js.Number_toString 1700000000001)]>
                        (getFormData bobForm)]).
Proof.
  refine (proj1 (create_appends_candidate bobForm 1700000000001 janeWorld
                   [janeRecord] _ _ _ _)).
  - compute_done.
  - compute_done.
  - compute_done.
  - constructor; [exists "Jane Doe"; compute_done|constructor].
Defined.

(** X5. While the clock advances between creations the ids stay distinct:
    if the stored ids differ from each other and are decimals of clock
    readings before [now], then after a creation at [now] the stored ids
    still differ from each other and are decimals of readings before
    [now + 1]. *)
Theorem create_keeps_ids_distinct (form : list (string * string)) (now : Z)
    (w : World) (records : list Client) :
  eval (validateFormData (getFormData form)) w = Normal true ->
  stored w records ->
  Js.truthy (getFormData form !! "id") = false ->
  NoDup ((fun c : Client => c !! "id") <$> records) ->
  Forall (id_before now) records ->
  exists records',
    stored (exec (handleFormSubmit form now) w) records'
    /\ NoDup ((fun c : Client => c !! "id") <$> records')
    /\ Forall (id_before (now + 1)) records'.
Proof.
  intros Hv Hs Hid Hnd Hbefore.
  exists (records ++ [<["id" := PStr (Js.Number_toString now)]> (getFormData form)])%list.
  split; [by apply create_appends_clock_id|]. split.
  - rewrite fmap_app. apply NoDup_app. split; [done|]. split; [|apply NoDup_singleton].
    intros i Hi Hi'. apply list_elem_of_fmap in Hi as (c & -> & Hc).
    apply list_elem_of_singleton in Hi'. rewrite lookup_insert_eq in Hi'.
    rewrite Forall_forall in Hbefore. destruct (Hbefore c Hc) as (t0 & Ht0 & E).
    rewrite E in Hi'. injection Hi' as Hi'. apply Number_toString_inj in Hi'. lia.
  - apply Forall_app. split.
    + eapply Forall_impl; [exact Hbefore|]. intros c (t0 & Ht0 & E).
      exists t0. split; [lia|done].
    + apply Forall_singleton. exists now. split; [lia|]. apply lookup_insert_eq.
Qed.

Lemma create_keeps_ids_distinct_witness :
  exists records',
    stored (exec (handleFormSubmit bobForm 1700000000001) janeWorld) records'
    /\ NoDup ((fun c : Client => c !! "id") <$> records')
    /\ Forall (id_before (1700000000001 + 1)) records'.
Proof.
  refine (create_keeps_ids_distinct bobForm 1700000000001 janeWorld [janeRecord]
            _ _ _ _ _).
  - compute_done.
  - compute_done.
  - compute_done.
  - apply NoDup_singleton.
  - apply Forall_singleton. exists 1700000000000. split; [lia|compute_done].
Defined.

(** X6. Where the clock reading is not yet the id of a stored record, the
    lookup of the new id after a creation returns the created record, which
    has every property of the candidate but the id. *)
Theorem create_then_findById (form : list (string * string)) (now : Z) (w : World)
    (records : list Client) :
  eval (validateFormData (getFormData form)) w = Normal true ->
  stored w records ->
  Js.truthy (getFormData form !! "id") = false ->
  (forall c, c ∈ records -> c !! "id" <> Some (PStr (Js.Number_toString now))) ->
  exists found : Client,
    eval (findById (Js.Number_toString now)) (exec (handleFormSubmit form now) w)
    = Normal (Some found)
    /\ found !! "id" = Some (PStr (Js.Number_toString now))
    /\ forall k, k <> "id" -> found !! k = getFormData form !! k.
Proof.
  intros Hv Hs Hid Hfresh. eexists.
  split; [by apply (create_then_findById_fresh form now w records)|].
  split; [apply lookup_insert_eq|]. intros k Hk. by apply lookup_insert_ne.
Qed.

Lemma create_then_findById_witness :
  exists found : Client,
    eval (findById (Js.Number_toString 1700000000001))
      (exec (handleFormSubmit bobForm 1700000000001) janeWorld)
    = Normal (Some found)
    /\ found !! "id" = Some (PStr (Js.Number_toString 1700000000001))
    /\ forall k, k <> "id" -> found !! k = getFormData bobForm !! k.
Proof.
  refine (create_then_findById bobForm 1700000000001 janeWorld [janeRecord] _ _ _ _).
  - compute_done.
  - compute_done.
  - compute_done.
  - intros c ->%list_elem_of_singleton. compute_done.
Defined.

Lemma find_replaced (p : Client -> bool) (data : Client) (l : list Client) :
  p data = true ->
  List.find p ((fun c => if p c then data else c) <$> l)
  = if existsb p l then Some data else None.
Proof.
  intros Hd. induction l as [|c l IH]; [done|].
  rewrite fmap_cons. simpl. destruct (p c) eqn:E; simpl.
  - by rewrite Hd.
  - by rewrite E.
Qed.

(** X7. After a valid update the lookup of the id of the candidate returns
    the candidate when some stored record had that id, and nothing when
    none had. *)
Theorem update_then_findById (form : list (string * string)) (now : Z) (w : World)
    (records : list Client) (id : string) :
  eval (validateFormData (getFormData form)) w = Normal true ->
  stored w records ->
  getFormData form !! "id" = Some (PStr id) ->
  id <> EmptyString ->
  eval (findById id) (exec (handleFormSubmit form now) w)
  = Normal (if existsb (fun c => Js.strict_eq (c !! "id") (Some (PStr id))) records
            then Some (getFormData form) else None).
Proof.
  intros Hv Hs Hid Hne.
  pose proof (handleFormSubmit_stored form now w records Hv Hs) as [Hs' _].
  cbv zeta in Hs'.
  assert (Js.truthy (getFormData form !! "id") = true) as Ht
    by by apply (truthy_string _ id Hid).
  rewrite Ht, Hid in Hs'. unfold eval. rewrite (findById_stored _ _ _ Hs'). simpl.
  f_equal. apply (find_replaced (fun c => Js.strict_eq (c !! "id") (Some (PStr id)))).
  unfold Js.strict_eq. by apply bool_decide_eq_true_2.
Qed.

Lemma update_then_findById_witness :
  eval (findById "1700000000000")
    (exec (handleFormSubmit janeEditForm 1700000000005) janeBobWorld)
  = Normal (if existsb (fun c => Js.strict_eq (c !! "id") (Some (PStr "1700000000000")))
                 [janeRecord; bobRecord]
            then Some (getFormData janeEditForm) else None).
Proof.
  refine (update_then_findById janeEditForm 1700000000005 janeBobWorld
            [janeRecord; bobRecord] "1700000000000" _ _ _ _).
  - compute_done.
  - compute_done.
  - compute_done.
  - discriminate.
Defined.

Lemma fmap_replace_idem (data : Client) (records : list Client) :
  let f := fun client : Client =>
             if Js.strict_eq (client !! "id") (data !! "id") then data else client in
  f <$> (f <$> records) = f <$> records.
Proof.
  intros f. rewrite <- list_fmap_compose. apply list_fmap_ext. intros _ c _.
  unfold f, compose. destruct (Js.strict_eq (c !! "id") (data !! "id")) eqn:E.
  - unfold Js.strict_eq. by rewrite bool_decide_eq_true_2.
  - by rewrite E.
Qed.

(** X8. Submitting the same valid edit a second time changes nothing in the
    repository: [localStorage] after the second submit is what the first
    left. *)
Theorem update_twice_is_update_once (form : list (string * string)) (now now' : Z)
    (w : World) (records : list Client) :
  eval (validateFormData (getFormData form)) w = Normal true ->
  stored w records ->
  Js.truthy (getFormData form !! "id") = true ->
  let w' := exec (handleFormSubmit form now) w in
  localStorage (exec (handleFormSubmit form now') w') = localStorage w'.
Proof.
  intros Hv Hs Hid w'.
  pose proof (handleFormSubmit_stored form now w records Hv Hs) as [Hs' _].
  cbv zeta in Hs'. fold w' in Hs'. rewrite Hid in Hs'.
  assert (eval (validateFormData (getFormData form)) w' = Normal true) as Hv'
    by by rewrite (validateFormData_pure _ w' w).
  pose proof (handleFormSubmit_stored form now' w' _ Hv' Hs') as [Hs'' _].
  cbv zeta in Hs''. rewrite Hid in Hs''.
  pose proof (fmap_replace_idem (getFormData form) records) as Hidem.
  cbv zeta in Hidem. rewrite Hidem in Hs''.
  destruct (handleFormSubmit_accepted form now w records Hv Hs) as [m1 H1].
  destruct (handleFormSubmit_accepted form now' w' _ Hv' Hs') as [m2 H2].
  cbv zeta in H1, H2. rewrite Hid in H1, H2. rewrite Hidem in H2.
  unfold exec at 1. rewrite H2.
  match goal with |- context [navigateTo PageList ?w0] =>
    pose proof (navigateTo_list_frame w0) as [F _] end.
  unfold exec in F. rewrite F. cbn [localStorage].
  assert (localStorage w'
          = <[CLIENTS_STORAGE_KEY :=
                JSON.stringify
                  ((fun client =>
                      if Js.strict_eq (client !! "id") (getFormData form !! "id")
                      then getFormData form else client) <$> records)]>
              (localStorage w)) as ->.
  { subst w'. unfold exec. rewrite H1.
    match goal with |- context [navigateTo PageList ?w0] =>
      pose proof (navigateTo_list_frame w0) as [F' _] end.
    unfold exec in F'. by rewrite F'. }
  by rewrite insert_insert_eq.
Qed.

Lemma update_twice_is_update_once_witness :
  localStorage (exec (handleFormSubmit janeEditForm 1700000000006)
                  (exec (handleFormSubmit janeEditForm 1700000000005) janeBobWorld))
  = localStorage (exec (handleFormSubmit janeEditForm 1700000000005) janeBobWorld).
Proof.
  refine (update_twice_is_update_once janeEditForm 1700000000005 1700000000006
            janeBobWorld [janeRecord; bobRecord] _ _ _);
    compute_done.
Defined.

(** ** What the repository keeps *)

Lemma validateFormData_id_irrelevant (data : Client) (v : JsPrim) (w : World) :
  eval (validateFormData (<["id" := v]> data)) w = eval (validateFormData data) w.
Proof.
  unfold validateFormData. run_M. by rewrite !lookup_insert_ne.
Qed.

(** X9. Only records that pass validation are persisted: in a repository
    whose records all pass validation, every submit, accepted or rejected,
    and every delete leaves a repository whose records all pass
    validation. *)
Theorem persisted_records_pass_validation (w : World) (records : list Client) :
  stored w records ->
  Forall passesValidation records ->
  (forall form now,
      exists records', stored (exec (handleFormSubmit form now) w) records'
                       /\ Forall passesValidation records')
  /\ (forall clientId clientName confirmed,
        exists records', stored (exec (handleDelete clientId clientName confirmed) w) records'
                         /\ Forall passesValidation records').
Proof.
  intros Hs Hp. split.
  - intros form now.
    destruct (validateFormData_run (getFormData form) w) as ([] & msg & E).
    + assert (eval (validateFormData (getFormData form)) w = Normal true) as Hv
        by (unfold eval; by rewrite E).
      pose proof (handleFormSubmit_stored form now w records Hv Hs) as [Hs' _].
      eexists. split; [exact Hs'|].
      assert (passesValidation (getFormData form)) as Hdata
        by (unfold passesValidation; by rewrite (validateFormData_pure _ _ w)).
      destruct (Js.truthy (getFormData form !! "id")).
      * apply Forall_fmap. eapply Forall_impl; [exact Hp|]. intros c Hc. simpl.
        by destruct (Js.strict_eq _ _).
      * apply Forall_app. split; [done|]. apply Forall_singleton.
        unfold passesValidation. by rewrite validateFormData_id_irrelevant.
    + assert (eval (validateFormData (getFormData form)) w = Normal false) as Hv
        by (unfold eval; by rewrite E).
      exists records. split; [|done].
      eapply stored_storage; [|exact Hs].
      by apply handleFormSubmit_rejected_storage.
  - intros clientId clientName [|].
    + eexists. split; [by apply handleDelete_stored|]. by apply Forall_filter_bool.
    + exists records. unfold exec. by rewrite handleDelete_declined.
Qed.

Lemma persisted_records_pass_validation_witness :
  exists records',
    stored (exec (handleFormSubmit bobForm 1700000000001) janeWorld) records'
    /\ Forall passesValidation records'.
Proof.
  refine (proj1 (persisted_records_pass_validation janeWorld [janeRecord] _ _)
            bobForm 1700000000001).
  - compute_done.
  - apply Forall_singleton. unfold passesValidation. compute_done.
Defined.

(** ** Deleting, further *)

Lemma filter_In_bool {A : Type} (f : A -> bool) (l : list A) (x : A) :
  x ∈ List.filter f l <-> x ∈ l /\ f x = true.
Proof. rewrite !list_elem_of_In. apply filter_In. Qed.

(** X10. A confirmed delete keeps exactly the records whose id is not the
    given one, in their order, so it removes every record with that id and
    no other; with names on the records it completes and announces the
    deletion, also when no record had the id.  A declined delete changes
    nothing at all. *)
Theorem delete_removes_matching_records (clientId clientName : string) (w : World)
    (records : list Client) :
  stored w records ->
  let w' := exec (handleDelete clientId clientName true) w in
  let kept :=
    List.filter (fun c => negb (Js.strict_eq (c !! "id") (Some (PStr clientId)))) records in
  stored w' kept
  /\ (forall c, c ∈ kept <-> c ∈ records /\ c !! "id" <> Some (PStr clientId))
  /\ sublist kept records
  /\ (Forall has_fullName records ->
      alerts w' = (alerts w ++ [clientName +:+ " has been deleted."])%list
      /\ tableRows w' = kept /\ page w' = page w)
  /\ exec (handleDelete clientId clientName false) w = w.
Proof.
  intros Hs w' kept. split; [by apply handleDelete_stored|].
  split; [|split; [|split; [|done]]].
  - intros c. unfold kept. rewrite filter_In_bool. unfold Js.strict_eq.
    rewrite negb_true_iff, bool_decide_eq_false. done.
  - unfold kept. clear. induction records as [|c l IH]; [done|]. simpl.
    destruct (negb _); [by apply sublist_skip|by apply sublist_cons].
  - intros Hn. subst w'. unfold exec, handleDelete.
    erewrite bind_run; [|by apply getClients_stored].
    erewrite bind_run; [|apply saveClients_run].
    erewrite bind_run.
    2:{ eapply renderClientList_named.
        - apply stored_written. cbn [localStorage]. apply lookup_insert_eq.
        - by apply Forall_filter_bool. }
    cbn. fold kept. split; [done|]. split; [|done].
    apply filter_all. eapply Forall_impl; [apply (Forall_filter_bool _ _ _ Hn)|].
    intros c. apply nameMatches_empty.
Qed.

Lemma delete_removes_matching_records_witness :
  stored (exec (handleDelete "1700000000000" "Jane Doe" true) janeBobWorld)
    (List.filter
       (fun c => negb (Js.strict_eq (c !! "id") (Some (PStr "1700000000000"))))
       [janeRecord; bobRecord]).
Proof.
  refine (proj1 (delete_removes_matching_records "1700000000000" "Jane Doe"
                   janeBobWorld [janeRecord; bobRecord] _)).
  compute_done.
Defined.

(** ** Storage that cannot be read *)

Lemma getClients_throws (w : World) (e : Js.Error) :
  eval getClients w = Throw e -> getClients w = (Throw e, w).
Proof. intros H. by rewrite getClients_run, H. Qed.

Lemma drop_json_ws_skip_ws (text : string) : drop_json_ws text = skip_ws text.
Proof.
  induction text as [|c r IH]; [done|]. simpl. rewrite IH.
  by destruct c as [[] [] [] [] [] [] [] []].
Qed.

Lemma parse_starts_no_value (text : string) :
  starts_no_value text = true -> JSON.parse text = None.
Proof.
  unfold starts_no_value, JSON.parse. rewrite drop_json_ws_skip_ws.
  destruct (skip_ws text) as [|c r]; [done|].
  intros H. unfold read_array, expect. simpl.
  destruct (Ascii.eqb_spec c "[") as [->|Hc]; [done|done].
Qed.

Lemma getClients_not_json (text : string) (w : World) :
  localStorage w !! CLIENTS_STORAGE_KEY = Some text ->
  text <> EmptyString ->
  starts_no_value text = true ->
  eval getClients w = Throw Js.SyntaxError.
Proof.
  intros Ht Hne Hs. unfold eval, getClients. run_M. rewrite Ht.
  destruct (String.eqb_spec text EmptyString) as [->|_]; [done|].
  by rewrite (parse_starts_no_value text Hs).
Qed.

(** X11. When the stored text is not empty and cannot be JSON, being over
    after its leading whitespace or going on with a character that begins
    no JSON value, reading it raises a [SyntaxError] and nothing is written:
    the list view, a confirmed delete and the detail view raise and leave
    the state as it was, and a valid submit raises after clearing the
    validation message, before any save, alert or navigation. *)
Theorem unreadable_storage_raises (text : string) (w : World) :
  localStorage w !! CLIENTS_STORAGE_KEY = Some text ->
  text <> EmptyString ->
  starts_no_value text = true ->
  eval getClients w = Throw Js.SyntaxError
  /\ (forall filter, renderClientList filter w = (Throw Js.SyntaxError, w))
  /\ (forall clientId clientName,
        handleDelete clientId clientName true w = (Throw Js.SyntaxError, w))
  /\ (forall clientId, handleView clientId w = (Throw Js.SyntaxError, w))
  /\ (forall form now,
        eval (validateFormData (getFormData form)) w = Normal true ->
        handleFormSubmit form now w
        = (Throw Js.SyntaxError,
           mkWorld (localStorage w) EmptyString (alerts w) (page w) (tableRows w)
             (tableHidden w) (viewed w))).
Proof.
  intros Ht Hne Hs. pose proof (getClients_not_json text w Ht Hne Hs) as H.
  split; [done|]. apply getClients_throws in H.
  split; [|split; [|split]].
  - intros filter. unfold renderClientList, mbind, M_bind. by rewrite H.
  - intros clientId clientName. unfold handleDelete, mbind, M_bind. by rewrite H.
  - intros clientId. unfold handleView, findById, mbind, M_bind. by rewrite H.
  - intros form now Hv. unfold handleFormSubmit.
    rewrite (bind_run _ _ _ _ _ (validateFormData_accepted_run _ w Hv)). cbn [negb].
    unfold mbind, M_bind.
    assert (getClients
              (mkWorld (localStorage w) EmptyString (alerts w) (page w) (tableRows w)
                 (tableHidden w) (viewed w))
            = (Throw Js.SyntaxError,
               mkWorld (localStorage w) EmptyString (alerts w) (page w) (tableRows w)
                 (tableHidden w) (viewed w))) as ->; [|done].
    apply getClients_throws. rewrite (getClients_storage w) by done.
    unfold eval. by rewrite H.
Qed.

Lemma unreadable_storage_raises_witness :
  handleDelete "1700000000000" "Jane Doe" true undefinedWorld
  = (Throw Js.SyntaxError, undefinedWorld).
Proof.
  refine (proj1 (proj2 (proj2 (unreadable_storage_raises "undefined" undefinedWorld
                                 _ _ _))) _ _).
  - reflexivity.
  - discriminate.
  - reflexivity.
Defined.

(** Text that [JSON.parse] reads is no such text, whatever it denotes. *)
Example starts_no_value_examples :
  starts_no_value "oops" = true
  /\ starts_no_value "  " = true
  /\ starts_no_value "<html>" = true
  /\ starts_no_value "null" = false
  /\ starts_no_value " [1]" = false
  /\ starts_no_value "3.0e1" = false
  /\ starts_no_value (JSON.stringify [janeRecord]) = false.
Proof. repeat split; by vm_compute. Qed.

(** ** The list page *)

(** X12. The list view hides the table and shows the message of no clients
    exactly when nothing is stored, whatever the search text.  With records
    stored the table stays shown, also when the search selects none of them
    and the table has no rows. *)
Theorem table_hidden_iff_nothing_stored (filter : string) (w : World)
    (records : list Client) :
  stored w records ->
  let w' := exec (renderClientList filter) w in
  (records = [] -> tableHidden w' = true /\ tableRows w' = []
                   /\ eval (renderClientList filter) w = Normal tt)
  /\ (records <> [] -> tableHidden w' = false)
  /\ (Forall has_fullName records ->
      Forall (fun c => nameMatches filter c = false) records ->
      tableRows w' = []).
Proof.
  intros Hs w'. subst w'. split; [|split].
  - intros ->. unfold exec, eval, renderClientList.
    erewrite bind_run; [|by apply getClients_stored]. done.
  - intros Hne. unfold exec, renderClientList, mbind, M_bind.
    rewrite (getClients_stored w records Hs).
    destruct records as [|c records]; [done|].
    unfold set_tableRows, set_tableHidden, modify, lift. simpl.
    by destruct (matchesFilter filter c), (Array_filter (matchesFilter filter) records).
  - intros Hn Hnone. unfold exec.
    rewrite (renderClientList_named filter w records Hs Hn). simpl.
    clear Hs Hn. induction Hnone as [|c l Hc _ IH]; [done|]. simpl. by rewrite Hc.
Qed.

Lemma table_hidden_iff_nothing_stored_witness :
  tableHidden (exec (renderClientList "zzz") janeBobWorld) = false.
Proof.
  refine (proj1 (proj2 (table_hidden_iff_nothing_stored "zzz" janeBobWorld
                          [janeRecord; bobRecord] _)) _).
  - compute_done.
  - discriminate.
Defined.

(** X13. Navigation shows the page asked for and writes neither to
    [localStorage] nor an alert.  Going to the form page clears the
    validation message; going to the list page renders the table anew from
    the repository, with every stored record in its order when the records
    have names. *)
Theorem navigateTo_shows_page (pageName : Page) (w : World) (records : list Client) :
  let w' := exec (navigateTo pageName) w in
  page w' = pageName
  /\ localStorage w' = localStorage w
  /\ alerts w' = alerts w
  /\ viewed w' = viewed w
  /\ (pageName = PageForm -> validationMessage w' = EmptyString)
  /\ (pageName = PageList -> stored w records -> Forall has_fullName records ->
      tableRows w' = records /\ eval (navigateTo pageName) w = Normal tt).
Proof.
  intros w'. subst w'.
  split; [|split; [|split; [|split; [|split]]]].
  1-4: destruct pageName; unfold navigateTo, exec; (erewrite bind_run; [|reflexivity]);
    try done;
    match goal with |- context [renderClientList EmptyString ?w0] =>
      pose proof (renderClientList_frame EmptyString w0) as (H1 & H2 & H3 & H4 & H5) end;
    unfold exec in *; by rewrite ?H1, ?H2, ?H4, ?H5.
  - by intros ->.
  - intros -> Hs Hn. unfold exec, eval.
    by rewrite (navigateTo_list_run w records Hs Hn).
Qed.

Lemma navigateTo_shows_page_witness :
  tableRows (exec (navigateTo PageList) janeBobWorld) = [janeRecord; bobRecord]
  /\ eval (navigateTo PageList) janeBobWorld = Normal tt.
Proof.
  refine (proj2 (proj2 (proj2 (proj2 (proj2
            (navigateTo_shows_page PageList janeBobWorld [janeRecord; bobRecord])))))
            _ _ _).
  - done.
  - compute_done.
  - constructor; [exists "Jane Doe"; compute_done|].
    constructor; [exists "Bob Roe"; compute_done|constructor].
Defined.

(** ** Viewing and editing *)

Lemma find_id_Some (clientId : string) (records : list Client) (c : Client) :
  List.find (fun c => Js.strict_eq (c !! "id") (Some (PStr clientId))) records = Some c ->
  c ∈ records /\ c !! "id" = Some (PStr clientId).
Proof.
  intros [Hin Hc]%find_some. split; [by apply list_elem_of_In|].
  unfold Js.strict_eq in Hc. by apply bool_decide_eq_true in Hc.
Qed.

(** X14. The detail view never writes to the repository.  For an id that no
    stored record has it alerts that the client was not found and changes
    nothing else; otherwise it displays the first stored record with that
    id and shows the view page.  After a confirmed delete of an id the
    detail view of that id ends in the alert. *)
Theorem handleView_shows_first_match (clientId : string) (w : World)
    (records : list Client) :
  stored w records ->
  let found :=
    List.find (fun c => Js.strict_eq (c !! "id") (Some (PStr clientId))) records in
  localStorage (exec (handleView clientId) w) = localStorage w
  /\ (found = None ->
      handleView clientId w
      = (Normal tt,
         mkWorld (localStorage w) (validationMessage w)
           (alerts w ++ ["Client not found!"])%list
           (page w) (tableRows w) (tableHidden w) (viewed w)))
  /\ (forall c, found = Some c ->
        c ∈ records /\ c !! "id" = Some (PStr clientId)
        /\ handleView clientId w
           = (Normal tt,
              mkWorld (localStorage w) (validationMessage w) (alerts w)
                PageView (tableRows w) (tableHidden w) (Some c)))
  /\ (forall clientName,
        let wd := exec (handleDelete clientId clientName true) w in
        handleView clientId wd
        = (Normal tt,
           mkWorld (localStorage wd) (validationMessage wd)
             (alerts wd ++ ["Client not found!"])%list
             (page wd) (tableRows wd) (tableHidden wd) (viewed wd))).
Proof.
  intros Hs found.
  assert (forall w0 l, stored w0 l ->
            List.find (fun c => Js.strict_eq (c !! "id") (Some (PStr clientId))) l = None ->
            handleView clientId w0
            = (Normal tt,
               mkWorld (localStorage w0) (validationMessage w0)
                 (alerts w0 ++ ["Client not found!"])%list
                 (page w0) (tableRows w0) (tableHidden w0) (viewed w0))) as Hnone.
  { intros w0 l Hs0 Hf. unfold handleView.
    erewrite bind_run; [|by apply findById_stored]. by rewrite Hf. }
  assert (forall c, found = Some c ->
            handleView clientId w
            = (Normal tt,
               mkWorld (localStorage w) (validationMessage w) (alerts w)
                 PageView (tableRows w) (tableHidden w) (Some c))) as Hsome.
  { intros c Hf. unfold handleView.
    erewrite bind_run; [|by apply findById_stored]. fold found. by rewrite Hf. }
  split; [|split; [by apply Hnone|split]].
  - unfold exec. destruct found as [c|] eqn:E.
    + by rewrite (Hsome c).
    + by rewrite (Hnone w records).
  - intros c Hf. destruct (find_id_Some _ _ _ Hf). auto.
  - intros clientName wd. eapply Hnone.
    + by apply handleDelete_stored.
    + apply find_filter_negb.
Qed.

Lemma handleView_shows_first_match_witness :
  localStorage (exec (handleView "1700000000001") janeBobWorld)
  = localStorage janeBobWorld.
Proof.
  refine (proj1 (handleView_shows_first_match "1700000000001" janeBobWorld
                   [janeRecord; bobRecord] _)).
  compute_done.
Defined.



(** Editing an id that is not stored leaves the state as it is. *)
Example handleEdit_unknown_id :
  handleEdit "42" janeBobWorld = (Normal None, janeBobWorld).
Proof. compute_done. Qed.

(** ** Records without a name *)

Lemma matchesFilter_cases (filter : string) (c : Client) :
  (has_fullName c /\ exists b, matchesFilter filter c = Normal b)
  \/ (~ has_fullName c /\ matchesFilter filter c = Throw Js.TypeError).
Proof.
  unfold matchesFilter, has_fullName.
  destruct (c !! "fullName") as [[s|n|b|]|]; eauto;
    right; (split; [|done]); by intros [s' ?].
Qed.

Lemma Array_filter_nameless (filter : string) (l : list Client) :
  (exists c, c ∈ l /\ ~ has_fullName c) ->
  Array_filter (matchesFilter filter) l = Throw Js.TypeError.
Proof.
  induction l as [|c l IH]; intros (c0 & Hin & Hc0); [by apply elem_of_nil in Hin|].
  simpl. destruct (matchesFilter_cases filter c) as [[Hc [b ->]]|[_ ->]]; [|done].
  apply elem_of_cons in Hin as [->|Hin]; [done|].
  rewrite IH; [done|]. eauto.
Qed.

(** X16. A stored record without a string under [fullName] stops the list
    view: rendering raises a [TypeError] with the table emptied.  A valid
    creation in such a repository is saved and announced before it raises,
    so the record is persisted although the handler ends in the error. *)
Theorem nameless_record_breaks_list (w : World) (records : list Client) :
  stored w records ->
  (exists c, c ∈ records /\ ~ has_fullName c) ->
  (forall filter,
      renderClientList filter w
      = (Throw Js.TypeError,
         mkWorld (localStorage w) (validationMessage w) (alerts w) (page w)
           [] false (viewed w)))
  /\ (forall form now,
        eval (validateFormData (getFormData form)) w = Normal true ->
        Js.truthy (getFormData form !! "id") = false ->
        let w' := exec (handleFormSubmit form now) w in
        eval (handleFormSubmit form now) w = Throw Js.TypeError
        /\ stored w'
             (records ++ [<["id" := PStr (Js.Number_toString now)]> (getFormData form)])
        /\ alerts w'
           = (alerts w ++ ["Client " +:+ Js.ToString (getFormData form !! "fullName")
                           +:+ " added successfully!"])%list).
Proof.
  intros Hs Hbad.
  assert (forall filter w0 l, stored w0 l -> (exists c, c ∈ l /\ ~ has_fullName c) ->
            renderClientList filter w0
            = (Throw Js.TypeError,
               mkWorld (localStorage w0) (validationMessage w0) (alerts w0) (page w0)
                 [] false (viewed w0))) as Hrender.
  { intros filter w0 l Hs0 Hbad0. unfold renderClientList, mbind, M_bind.
    rewrite (getClients_stored w0 l Hs0).
    destruct l as [|c l]; [by destruct Hbad0 as (c & Hc%elem_of_nil & _)|].
    unfold set_tableRows, set_tableHidden, modify, lift.
    cbn [length Nat.eqb localStorage validationMessage alerts page tableRows
         tableHidden viewed].
    by rewrite (Array_filter_nameless filter (c :: l) Hbad0). }
  split; [intros filter; by apply (Hrender filter w records)|].
  intros form now Hv Hid w'.
  pose proof (handleFormSubmit_stored form now w records Hv Hs) as [Hs' Ha].
  cbv zeta in Hs', Ha. rewrite Hid in Hs', Ha. fold w' in Hs', Ha.
  split; [|split; [done|]].
  - destruct (handleFormSubmit_accepted form now w records Hv Hs) as [msg H].
    cbv zeta in H. rewrite Hid in H. unfold eval. rewrite H.
    unfold navigateTo. erewrite bind_run; [|reflexivity].
    erewrite Hrender; [done| |].
    + apply stored_written. cbn [localStorage]. apply lookup_insert_eq.
    + destruct Hbad as (c & Hin & Hc). exists c. split; [|done].
      apply elem_of_app. by left.
  - by rewrite lookup_insert_ne in Ha.
Qed.

Lemma nameless_record_breaks_list_witness :
  renderClientList "a" namelessWorld
  = (Throw Js.TypeError,
     mkWorld (localStorage namelessWorld) (validationMessage namelessWorld)
       (alerts namelessWorld) (page namelessWorld) [] false (viewed namelessWorld)).
Proof.
  refine (proj1 (nameless_record_breaks_list namelessWorld [∅] _ _) "a").
  - compute_done.
  - exists ∅. split; [apply list_elem_of_here|]. intros [s H]. by rewrite lookup_empty in H.
Defined.

(** ** Suggested exercises *)

Lemma all_chars_app (p : ascii -> bool) (s t : string) :
  all_chars p (s +:+ t) = all_chars p s && all_chars p t.
Proof.
  induction s as [|c s IH]; [done|]. rewrite app_cons_s. simpl.
  by rewrite IH, andb_assoc.
Qed.

Lemma stripTags_from_no_lt (s : string) :
  forall inTag, all_chars not_lt (stripTags_from inTag s) = true.
Proof.
  induction s as [|c s IH]; intros inTag; [done|]. simpl.
  destruct inTag.
  - destruct (Ascii.eqb c ">"); apply IH.
  - destruct (Ascii.eqb c "<") eqn:E; [apply IH|]. simpl.
    unfold not_lt at 1. by rewrite E, IH.
Qed.

Lemma stripTags_plain (s : string) : all_chars not_lt s = true -> stripTags s = s.
Proof.
  unfold stripTags. induction s as [|c s IH]; [done|]. simpl.
  intros [Hc Hs]%andb_true_iff. unfold not_lt in Hc.
  apply negb_true_iff in Hc. by rewrite Hc, IH.
Qed.

Lemma stripTags_from_length (s : string) :
  forall inTag, (String.length (stripTags_from inTag s) <= String.length s)%nat.
Proof.
  induction s as [|c s IH]; intros inTag; [done|]. simpl.
  destruct inTag.
  - destruct (Ascii.eqb c ">"); [specialize (IH false)|specialize (IH true)]; lia.
  - destruct (Ascii.eqb c "<"); [specialize (IH true)|specialize (IH false)];
      simpl; lia.
Qed.

(** X17. Stripping leaves no [<] in the text and never lengthens it; a text
    without [<] is returned as it is, so stripping a stripped text changes
    nothing. *)
Theorem stripTags_leaves_no_lt (s : string) :
  all_chars not_lt (stripTags s) = true
  /\ (String.length (stripTags s) <= String.length s)%nat
  /\ (all_chars not_lt s = true -> stripTags s = s)
  /\ stripTags (stripTags s) = stripTags s.
Proof.
  split; [apply stripTags_from_no_lt|]. split; [apply stripTags_from_length|].
  split; [apply stripTags_plain|]. apply stripTags_plain, stripTags_from_no_lt.
Qed.

Lemma stripTags_from_inside (t : string) (rest : string) :
  all_chars not_gt t = true ->
  stripTags_from true (t +:+ String ">" rest) = stripTags_from false rest
  /\ stripTags_from true t = EmptyString.
Proof.
  induction t as [|c t IH]; [done|]. cbn [all_chars].
  intros [Hc Ht]%andb_true_iff.
  unfold not_gt in Hc. apply negb_true_iff in Hc.
  rewrite app_cons_s. cbn [stripTags_from]. rewrite Hc. by apply IH.
Qed.

Lemma stripTags_from_outside (a : string) (rest : string) :
  all_chars not_lt a = true ->
  stripTags_from false (a +:+ rest) = a +:+ stripTags_from false rest.
Proof.
  induction a as [|c a IH]; [done|]. cbn [all_chars].
  intros [Hc Ha]%andb_true_iff.
  unfold not_lt in Hc. apply negb_true_iff in Hc.
  rewrite !app_cons_s. cbn [stripTags_from]. by rewrite Hc, IH.
Qed.

(** The pattern matches a [<] followed by characters other than [>] and,
    or not, a closing [>]. *)
Lemma tagRegex_shape (m : string) :
  RegExp.test tagRegex m = true
  <-> exists t, all_chars not_gt t = true
                /\ (m = "<" +:+ t +:+ ">" \/ m = "<" +:+ t).
Proof.
  rewrite test_Matches. unfold tagRegex. rewrite Matches_Seq. split.
  - intros (x & s2 & -> & (c & -> & Hc)%Matches_Class & H).
    apply Ascii.eqb_eq in Hc as <-.
    apply Matches_Seq in H as (t & s3 & -> & Ht%Matches_Star_Class & H).
    exists t. split; [done|].
    inversion H as [| | |? ? ? H1| ? ? ? H1| |]; subst.
    + apply Matches_Class in H1 as (c & -> & Hc). apply Ascii.eqb_eq in Hc as <-.
      by left.
    + inversion H1; subst. right. by rewrite app_nil_r_s.
  - intros (t & Ht & [->| ->]).
    + exists "<", (t +:+ ">"). split; [done|]. split; [by constructor|].
      apply Matches_Seq. exists t, ">". split; [done|].
      split; [by apply Matches_Star_Class|]. apply MAltL. by constructor.
    + exists "<", t. split; [done|]. split; [by constructor|].
      apply Matches_Seq. exists t, EmptyString. split; [by rewrite app_nil_r_s|].
      split; [by apply Matches_Star_Class|]. apply MAltR. constructor.
Qed.

(** X18. A tag is removed whole and the text before it is kept: after a text
    without [<], a [<] with the characters up to its closing [>] matches the
    pattern and is dropped, and stripping goes on behind it; a [<] that is
    never closed matches too and takes the rest of the text with it. *)
Theorem stripTags_removes_tags (a t b : string) :
  all_chars not_lt a = true ->
  all_chars not_gt t = true ->
  RegExp.test tagRegex ("<" +:+ t +:+ ">") = true
  /\ stripTags (a +:+ "<" +:+ t +:+ ">" +:+ b) = a +:+ stripTags b
  /\ RegExp.test tagRegex ("<" +:+ t) = true
  /\ stripTags (a +:+ "<" +:+ t) = a.
Proof.
  intros Ha Ht. destruct (stripTags_from_inside t b Ht) as [Hin Hend].
  split; [apply tagRegex_shape; eauto|]. split; [|split; [apply tagRegex_shape; eauto|]].
  - unfold stripTags. rewrite stripTags_from_outside by done.
    rewrite !app_cons_s, !app_nil_s. cbn [stripTags_from].
    change (Ascii.eqb "<" "<") with true. cbv iota.
    by rewrite Hin.
  - unfold stripTags. rewrite stripTags_from_outside by done.
    rewrite !app_cons_s, !app_nil_s. cbn [stripTags_from].
    change (Ascii.eqb "<" "<") with true. cbv iota.
    by rewrite Hend, app_nil_r_s.
Qed.

Lemma stripTags_removes_tags_witness :
  stripTags ("Lie on a bench. " +:+ "<" +:+ "br /" +:+ ">" +:+ "Push " +:+ "<b")
  = "Lie on a bench. " +:+ stripTags ("Push " +:+ "<b").
Proof.
  refine (proj1 (proj2 (stripTags_removes_tags "Lie on a bench. " "br /"
                          ("Push " +:+ "<b") _ _)));
    compute_done.
Defined.

Lemma substring0_length (n : nat) (s : string) :
  (String.length (substring0 n s) <= n)%nat.
Proof.
  revert s. induction n as [|n IH]; intros [|c s]; simpl; try lia.
  specialize (IH s). lia.
Qed.

Lemma substring0_prefix (n : nat) (s : string) :
  exists rest, s = substring0 n s +:+ rest.
Proof.
  revert s. induction n as [|n IH]; intros s.
  - exists s. by destruct s.
  - destruct s as [|c s]; [by exists EmptyString|].
    destruct (IH s) as [rest H]. exists rest. simpl. rewrite app_cons_s. by rewrite <- H.
Qed.

Lemma substring0_all (n : nat) (s : string) :
  (String.length s <= n)%nat -> substring0 n s = s.
Proof.
  revert s. induction n as [|n IH]; intros [|c s]; simpl; try done; try lia.
  intros H. rewrite IH; [done|lia].
Qed.

Lemma substring0_all_chars (p : ascii -> bool) (n : nat) (s : string) :
  all_chars p s = true -> all_chars p (substring0 n s) = true.
Proof.
  revert s. induction n as [|n IH]; intros [|c s]; simpl; try done.
  intros [Hc Hs]%andb_true_iff. by rewrite Hc, IH.
Qed.

Lemma exerciseItem_string (e : Exercise) (d : string) :
  exDescription e = Some (PStr d) ->
  exerciseItem e
  = Normal ("<strong>" +:+ Js.ToString (exName e) +:+ "</strong>: "
            +:+ substring0 100 (stripTags d) +:+ "...").
Proof. intros H. unfold exerciseItem. by rewrite H. Qed.

Lemma exerciseItem_not_string (e : Exercise) :
  ~ has_description e -> exerciseItem e = Throw Js.TypeError.
Proof.
  intros Hno. unfold exerciseItem, has_description in *.
  destruct (exDescription e) as [[d|n|b|]|]; try done. destruct Hno. eauto.
Qed.

(** X19. The item of an exercise is the name in bold, a colon, a preview of
    the description and three dots, which are written also when nothing was
    cut.  The preview starts the stripped description, has at most 100
    characters, all of them when the stripped description has no more, and
    no [<].  An exercise whose description is not a string has no item: the
    script raises a [TypeError]. *)
Theorem exerciseItem_preview (e : Exercise) :
  (forall d, exDescription e = Some (PStr d) ->
     exists preview rest,
       exerciseItem e
       = Normal ("<strong>" +:+ Js.ToString (exName e) +:+ "</strong>: "
                 +:+ preview +:+ "...")
       /\ stripTags d = preview +:+ rest
       /\ (String.length preview <= 100)%nat
       /\ ((String.length (stripTags d) <= 100)%nat -> preview = stripTags d)
       /\ all_chars not_lt preview = true)
  /\ (~ has_description e -> exerciseItem e = Throw Js.TypeError).
Proof.
  split.
  - intros d Hd. destruct (substring0_prefix 100 (stripTags d)) as [rest Hrest].
    exists (substring0 100 (stripTags d)), rest.
    split; [by apply exerciseItem_string|]. split; [done|].
    split; [apply substring0_length|]. split; [apply substring0_all|].
    apply substring0_all_chars, stripTags_from_no_lt.
  - apply exerciseItem_not_string.
Qed.

Lemma exerciseItems_all (results : list Exercise) :
  Forall has_description results ->
  exists items,
    exerciseItems results = Normal items
    /\ Forall2 (fun e item => exerciseItem e = Normal item) results items.
Proof.
  induction 1 as [|e l [d Hd] _ (items & E & HF)].
  - exists []. split; [done|constructor].
  - pose proof (exerciseItem_string e d Hd) as Hitem.
    eexists (_ :: items). simpl. rewrite Hitem, E. split; [done|].
    constructor; [done|exact HF].
Qed.

Lemma exerciseItems_some_bad (results : list Exercise) :
  Exists (fun e => ~ has_description e) results ->
  exerciseItems results = Throw Js.TypeError.
Proof.
  induction 1 as [e l He|e l _ IH]; simpl.
  - by rewrite (exerciseItem_not_string e He).
  - destruct (exerciseItem e) as [item|err] eqn:E.
    + by rewrite IH.
    + unfold exerciseItem in E. by destruct (exDescription e) as [[| | |]|]; inversion E.
Qed.

(** X20. However the request ends, the list of suggestions is not left
    empty.  A request that failed or was not ok gives the one item of the
    error; results that are missing or empty give the one item that says
    so; results whose descriptions are all strings give one item for each,
    in order; and a single description that is not a string turns the whole
    list into the item of the error. *)
Theorem suggestedExercises_never_empty (r : FetchResult) :
  suggestedExercises r <> []
  /\ ((r = FetchRejected \/ exists status, r = FetchNotOk status) ->
      suggestedExercises r = [fetchError])
  /\ ((r = FetchJson None \/ r = FetchJson (Some [])) ->
      suggestedExercises r = ["No exercises found."])
  /\ (forall results,
        r = FetchJson (Some results) -> results <> [] ->
        Forall has_description results ->
        Forall2 (fun e item => exerciseItem e = Normal item) results
          (suggestedExercises r))
  /\ (forall results,
        r = FetchJson (Some results) ->
        Exists (fun e => ~ has_description e) results ->
        suggestedExercises r = [fetchError]).
Proof.
  split; [|split; [|split; [|split]]].
  - destruct r as [| |[[|e l]|]]; simpl; try done.
    destruct (exerciseItem e) as [item|]; [|done].
    by destruct (exerciseItems l).
  - by intros [->|[status ->]].
  - by intros [->| ->].
  - intros results -> Hne Hall. destruct results as [|e l]; [done|].
    destruct (exerciseItems_all _ Hall) as (items & E & HF).
    unfold suggestedExercises. by rewrite E.
  - intros results -> Hbad. destruct results as [|e l]; [by apply Exists_nil in Hbad|].
    unfold suggestedExercises. by rewrite (exerciseItems_some_bad _ Hbad).
Qed.

Lemma suggestedExercises_never_empty_witness :
  suggestedExercises
    (FetchJson (Some [mkExercise (Some (PStr "Squat")) (Some (PStr ("<p" +:+ ">Bend")));
                      mkExercise (Some (PStr "Plank")) (Some PNull)]))
  = [fetchError].
Proof.
  refine (proj2 (proj2 (proj2 (proj2 (suggestedExercises_never_empty _)))) _ eq_refl _).
  apply Exists_cons_tl, Exists_cons_hd. intros [d H]. discriminate.
Defined.
